(** * SnakeGame.jsx: the simulation behind the React component

    A shallow embedding of the game logic of
    [src/snake-game/src/SnakeGame.jsx]: the helpers
    ([randomFoodPosition], [positionsEqual], [oppositeDirection]), the
    updater run by the game loop's interval, the input handlers and the
    controls.  React state is modelled by one record holding the eight
    [useState] cells plus the two pieces of ambient state the component
    touches: the [localStorage] entry and the position in the stream of
    [Math.random] draws. *)

From Stdlib Require Import ZArith List Bool Lia.
Import ListNotations.
Local Open Scope Z_scope.

(** ** Data *)

(** A JS object [{x, y}].  The component uses the same shape for grid
    cells and for direction vectors. *)
Record Point : Type := mkPoint { x : Z; y : Z }.

Definition Cell := Point.
Definition Direction := Point.

Definition GRID_SIZE : Z := 20.

(** The eight [useState] cells, the [snake_high_score] entry of
    [localStorage] ([None]: the key is absent) and the number of random
    coordinates drawn so far. *)
Record GameState : Type := mkState {
  snake : list Cell;
  direction : Direction;
  food : Cell;
  running : bool;
  speed : Z;
  score : Z;
  gameOver : bool;
  highScore : Z;
  localStorage : option Z;
  drawn : nat
}.

(** What running a piece of the component can do: finish with a value,
    throw (reading [prev[0].x] of an empty array), or still be inside
    [while (true)] when the fuel is spent. *)
Inductive outcome (A : Type) : Type :=
| Done (a : A)
| TypeError
| OutOfFuel.
Arguments Done {A} a.
Arguments TypeError {A}.
Arguments OutOfFuel {A}.

(** The data model's ranges: a cell lies on the grid, a direction is one
    of the four unit vectors. *)
Definition in_grid (p : Cell) : Prop :=
  0 <= x p < GRID_SIZE /\ 0 <= y p < GRID_SIZE.

Definition right_ : Direction := mkPoint 1 0.
Definition left_ : Direction := mkPoint (-1) 0.
Definition down_ : Direction := mkPoint 0 1.
Definition up_ : Direction := mkPoint 0 (-1).

Definition is_direction (d : Direction) : Prop :=
  d = right_ \/ d = left_ \/ d = down_ \/ d = up_.

(** ** Helpers *)

(** [a.x === b.x && a.y === b.y] *)
Definition positionsEqual (a b : Point) : bool :=
  (x a =? x b) && (y a =? y b).

(** [d1.x + d2.x === 0 && d1.y + d2.y === 0] *)
Definition oppositeDirection (d1 d2 : Direction) : bool :=
  (x d1 + x d2 =? 0) && (y d1 + y d2 =? 0).

(** [exclude.some((p) => p.x === x && p.y === y)] *)
Definition excluded (exclude : list Cell) (cx cy : Z) : bool :=
  existsb (fun p => (x p =? cx) && (y p =? cy)) exclude.

Section Random.

(** [rnd k] is the value of the k-th evaluation of
    [Math.floor(Math.random() * GRID_SIZE)]. *)
Variable rnd : nat -> Z.

(** The [while (true)] loop of [randomFoodPosition]: each round draws
    [x] then [y] and returns the cell unless [exclude] holds it.  [n] is
    the index of the next draw; the result carries the index after the
    last one. *)
Fixpoint randomFoodPosition (fuel : nat) (n : nat) (exclude : list Cell)
  : option (Cell * nat) :=
  match fuel with
  | O => None
  | S fuel' =>
      let cx := rnd n in
      let cy := rnd (S n) in
      if negb (excluded exclude cx cy) then Some (mkPoint cx cy, S (S n))
      else randomFoodPosition fuel' (S (S n)) exclude
  end.

(** ** The game loop *)

(** [head = prev[0] + direction], then
    [head.x = (head.x + GRID_SIZE) % GRID_SIZE] and the same for [y]; JS
    [%] truncates, hence [Z.rem]. *)
Definition new_head (h : Cell) (d : Direction) : Cell :=
  mkPoint (Z.rem (x h + x d + GRID_SIZE) GRID_SIZE)
          (Z.rem (y h + y d + GRID_SIZE) GRID_SIZE).

(** [prev.some((p) => positionsEqual(p, head))] *)
Definition hits (prev : list Cell) (head : Cell) : bool :=
  existsb (fun p => positionsEqual p head) prev.

(** The updater passed to [setSnake] by the interval callback, together
    with the setters it calls. *)
Definition tick (fuel : nat) (st : GameState) : outcome GameState :=
  match snake st with
  | [] => TypeError
  | h :: _ =>
      let prev := snake st in
      let head := new_head h (direction st) in
      if hits prev head then
        let newHs := Z.max (highScore st) (score st) in
        Done (mkState prev (direction st) (food st) false (speed st)
                      (score st) true newHs (Some newHs) (drawn st))
      else
        let ateFood := positionsEqual head (food st) in
        let newSnake := head :: prev in
        if negb ateFood then
          Done (mkState (removelast newSnake) (direction st) (food st)
                        (running st) (speed st) (score st) (gameOver st)
                        (highScore st) (localStorage st) (drawn st))
        else
          match randomFoodPosition fuel (drawn st) newSnake with
          | None => OutOfFuel
          | Some (f, n') =>
              Done (mkState newSnake (direction st) f (running st)
                            (speed st) (score st + 1) (gameOver st)
                            (highScore st) (localStorage st) n')
          end
  end.

(** The effect installs the interval only while
    [running && !gameOver]; otherwise no tick happens. *)
Definition game_loop (fuel : nat) (st : GameState) : outcome GameState :=
  if negb (running st) || gameOver st then Done st else tick fuel st.

(** ** Controls *)

Definition center : Cell :=
  mkPoint (GRID_SIZE / 2) (GRID_SIZE / 2).

(** [resetGame]: the six setters, none of them [setHighScore] or
    [setSpeed]; the food comes from [randomFoodPosition()] with the
    default [exclude = []]. *)
Definition resetGame (fuel : nat) (st : GameState) : outcome GameState :=
  match randomFoodPosition fuel (drawn st) [] with
  | None => OutOfFuel
  | Some (f, n') =>
      Done (mkState [center] right_ f false (speed st) 0 false
                    (highScore st) (localStorage st) n')
  end.

(** The state after the first render: the [useState] initialisers in
    source order.  [stored] is the [localStorage] entry found, [n] the
    index of the next random draw. *)
Definition initial (fuel : nat) (stored : option Z) (n : nat)
  : outcome GameState :=
  match randomFoodPosition fuel n [] with
  | None => OutOfFuel
  | Some (f, n') =>
      Done (mkState [center] right_ f false 8 0 false
                    (match stored with Some v => v | None => 0 end)
                    stored n')
  end.

(** [handleStart]: [resetGame()] when the game is over, then
    [setRunning(true); setGameOver(false)]. *)
Definition handleStart (fuel : nat) (st : GameState) : outcome GameState :=
  let go s :=
    mkState (snake s) (direction s) (food s) true (speed s) (score s) false
            (highScore s) (localStorage s) (drawn s) in
  if gameOver st then
    match resetGame fuel st with
    | Done s => Done (go s)
    | TypeError => TypeError
    | OutOfFuel => OutOfFuel
    end
  else Done (go st).

End Random.

(** [setDirection((prev) => (!oppositeDirection(prev, d) ? d : prev))],
    the updater every direction control uses. *)
Definition turn (d prev : Direction) : Direction :=
  if negb (oppositeDirection prev d) then d else prev.

Definition setDirection (d : Direction) (st : GameState) : GameState :=
  mkState (snake st) (turn d (direction st)) (food st) (running st)
          (speed st) (score st) (gameOver st) (highScore st)
          (localStorage st) (drawn st).

(** [setRunning((r) => !r)] *)
Definition toggleRunning (st : GameState) : GameState :=
  mkState (snake st) (direction st) (food st) (negb (running st))
          (speed st) (score st) (gameOver st) (highScore st)
          (localStorage st) (drawn st).

(** [handlePause] *)
Definition handlePause (st : GameState) : GameState :=
  mkState (snake st) (direction st) (food st) false
          (speed st) (score st) (gameOver st) (highScore st)
          (localStorage st) (drawn st).

(** The keys [onKey] tells apart. *)
Inductive Key : Type :=
| ArrowUp | ArrowDown | ArrowLeft | ArrowRight | Space | OtherKey.

(** [onKey]: nothing while the game is not running; the arrows (and
    WASD, which share their branches) request a direction, space toggles
    pause. *)
Definition onKey (k : Key) (st : GameState) : GameState :=
  if negb (running st) then st
  else match k with
       | ArrowUp => setDirection up_ st
       | ArrowDown => setDirection down_ st
       | ArrowLeft => setDirection left_ st
       | ArrowRight => setDirection right_ st
       | Space => toggleRunning st
       | OtherKey => st
       end.

(** ** The speed control *)

(** The attributes of the element
    [<input type="range" min={3} max={20} value={speed}>]: the bounds
    it declares and the value it shows. *)
Record RangeInput : Type := mkRange { min : Z; max : Z; value : Z }.

Definition speed_input (st : GameState) : RangeInput :=
  mkRange 3 20 (speed st).

(** The state setter [setSpeed]. *)
Definition setSpeed (v : Z) (st : GameState) : GameState :=
  mkState (snake st) (direction st) (food st) (running st) v (score st)
          (gameOver st) (highScore st) (localStorage st) (drawn st).

(** [onChange={(e) => setSpeed(Number(e.target.value))}]; [requested]
    is [Number(e.target.value)], stored as it comes. *)
Definition onSpeedChange (requested : Z) (st : GameState) : GameState :=
  setSpeed requested st.

(** The [Reset High] button: the one control that writes the high score
    outside the game loop. *)
Definition resetHigh (st : GameState) : GameState :=
  mkState (snake st) (direction st) (food st) (running st) (speed st)
          (score st) (gameOver st) 0 (Some 0) (drawn st).

(** ** Operations of the engine *)

Inductive Op : Type :=
| OpTick
| OpKey (k : Key)
| OpDirection (d : Direction)
| OpStart
| OpPause
| OpReset
| OpToggle
| OpSpeed (v : Z).

Definition run (rnd : nat -> Z) (fuel : nat) (op : Op) (st : GameState)
  : outcome GameState :=
  match op with
  | OpTick => game_loop rnd fuel st
  | OpKey k => Done (onKey k st)
  | OpDirection d => Done (setDirection d st)
  | OpStart => handleStart rnd fuel st
  | OpPause => Done (handlePause st)
  | OpReset => resetGame rnd fuel st
  | OpToggle => Done (toggleRunning st)
  | OpSpeed v => Done (onSpeedChange v st)
  end.

Fixpoint run_all (rnd : nat -> Z) (fuel : nat) (ops : list Op)
  (st : GameState) : outcome GameState :=
  match ops with
  | [] => Done st
  | op :: ops' =>
      match run rnd fuel op st with
      | Done st' => run_all rnd fuel ops' st'
      | TypeError => TypeError
      | OutOfFuel => OutOfFuel
      end
  end.

(** What the [highScore] initialiser reads back from [localStorage]. *)
Definition getHighScore (st : GameState) : Z :=
  match localStorage st with Some v => v | None => 0 end.

(** The [highScore] cell and the stored entry agree. *)
Definition synced (st : GameState) : Prop :=
  highScore st = getHighScore st.

(** ** Occupancy of the grid *)

Definition all_cells : list Cell :=
  flat_map (fun i => map (fun j => mkPoint (Z.of_nat i) (Z.of_nat j))
                         (seq 0 20))
           (seq 0 20).

Definition covers_grid (exclude : list Cell) : Prop :=
  forall cx cy, 0 <= cx < GRID_SIZE -> 0 <= cy < GRID_SIZE ->
                excluded exclude cx cy = true.

Definition covers_gridb (exclude : list Cell) : bool :=
  forallb (fun c => excluded exclude (x c) (y c)) all_cells.

(** ** Concrete boards *)

(** The k-th cell of the path that sweeps the rows in turn, left to
    right on even rows and right to left on odd ones. *)
Definition sweep (k : nat) : Cell :=
  let r := Z.of_nat k / GRID_SIZE in
  let c := Z.of_nat k mod GRID_SIZE in
  mkPoint (if Z.even r then c else GRID_SIZE - 1 - c) r.

(** A snake lying on the first [n] cells of that path, head on the last
    of them. *)
Definition sweep_snake (n : nat) : list Cell :=
  map sweep (rev (seq 0 n)).

(** 399 cells taken, the head next to the one free cell, which holds
    the food. *)
Definition almost_full : GameState :=
  mkState (sweep_snake 399) left_ (sweep 399) true 8 398 false 0 None 0.

(** A random source that walks through the coordinates in turn. *)
Definition cycle (k : nat) : Z := Z.of_nat (k mod 20).

(** A random source that replays [l] and then yields 0. *)
Definition replay (l : list Z) (k : nat) : Z := nth k l 0.

Definition fresh (f : Cell) : GameState :=
  mkState [center] right_ f false 8 0 false 0 None 0.

(** A snake curled in a 2x2 block, about to step left onto its tail. *)
Definition curled : GameState :=
  mkState [mkPoint 5 5; mkPoint 5 6; mkPoint 4 6; mkPoint 4 5] left_
          (mkPoint 0 0) true 8 3 false 1 (Some 1) 8.

(** The straight snake of the spec's scenario, heading right. *)
Definition straight : GameState :=
  mkState [mkPoint 5 5; mkPoint 4 5; mkPoint 3 5] right_
          (mkPoint 0 0) true 8 2 false 0 None 6.

(** [straight] after the key presses up, then left, within one tick
    window. *)
Definition after_up : GameState := onKey ArrowUp straight.
Definition after_up_left : GameState := onKey ArrowLeft after_up.

(** A random source whose draws are all 10. *)
Definition tens (k : nat) : Z := 10.

(** The direction cell after the requests [ds], in order, starting from
    [a]. *)
Definition requests (ds : list Direction) (a : Direction) : Direction :=
  fold_left (fun p d => turn d p) ds a.

(** A scripted session: the food appears at (11,10), (12,10), (13,10),
    then out of the way; the first game eats three times and curls onto
    its own tail, the second eats once and doubles back. *)
Definition script : nat -> Z :=
  replay [11; 10; 12; 10; 13; 10; 0; 0; 11; 10; 5; 5].

Definition first_game : list Op :=
  [OpStart; OpTick; OpTick; OpTick; OpKey ArrowDown; OpTick;
   OpKey ArrowLeft; OpTick; OpKey ArrowUp; OpTick].

Definition second_game : list Op :=
  [OpStart; OpTick; OpKey ArrowUp; OpKey ArrowLeft; OpTick].

(** [curled] after the tick that ends the game. *)
Definition curled_over : GameState :=
  mkState [mkPoint 5 5; mkPoint 5 6; mkPoint 4 6; mkPoint 4 5] left_
          (mkPoint 0 0) false 8 3 true 3 (Some 3) 8.

(** ** The remaining controls *)

(** The [Restart] button of the game-over panel:
    [setRunning(true); setGameOver(false)], with no [resetGame]. *)
Definition restart (st : GameState) : GameState :=
  mkState (snake st) (direction st) (food st) true (speed st) (score st)
          false (highScore st) (localStorage st) (drawn st).

(** [newSnake.push({ ...newSnake[newSnake.length - 1] })].  On an empty
    array the source pushes an object without coordinates, which is no
    cell: [None]. *)
Definition push_copy_of_last (s : list Cell) : option (list Cell) :=
  match s with
  | [] => None
  | h :: _ => Some (s ++ [last s h])
  end.

(** The [Grow] button: a copy of the array, then two such pushes. *)
Definition grow (st : GameState) : option GameState :=
  match push_copy_of_last (snake st) with
  | None => None
  | Some s1 =>
      match push_copy_of_last s1 with
      | None => None
      | Some s2 =>
          Some (mkState s2 (direction st) (food st) (running st) (speed st)
                        (score st) (gameOver st) (highScore st)
                        (localStorage st) (drawn st))
      end
  end.

(** ** Touch *)

(** The component's state together with [touchStartRef.current]
    ([None]: [null]).  Touch coordinates are taken in whole pixels. *)
Record Ui : Type := mkUi { game : GameState; touchStartRef : option Point }.

(** [handleTouchStart] *)
Definition handleTouchStart (t : Point) (ui : Ui) : Ui :=
  mkUi (game ui) (Some t).

(** [handleTouchEnd]: nothing without a recorded start; nothing (and the
    start kept) below the threshold; otherwise one direction request
    along the longer axis, and the start cleared. *)
Definition handleTouchEnd (t : Point) (ui : Ui) : Ui :=
  match touchStartRef ui with
  | None => ui
  | Some s =>
      let dx := x t - x s in
      let dy := y t - y s in
      let absx := Z.abs dx in
      let absy := Z.abs dy in
      let threshold := 20 in
      if Z.max absx absy <? threshold then ui
      else
        mkUi (if absy <? absx then
                if 0 <? dx then setDirection right_ (game ui)
                else setDirection left_ (game ui)
              else
                if 0 <? dy then setDirection down_ (game ui)
                else setDirection up_ (game ui))
             None
  end.

(** ** Every control *)

(** The four on-screen arrow buttons. *)
Inductive Arrow : Type := GoUp | GoDown | GoLeft | GoRight.

Definition arrow (a : Arrow) : Direction :=
  match a with
  | GoUp => up_
  | GoDown => down_
  | GoLeft => left_
  | GoRight => right_
  end.

(** What can happen to the mounted component: the interval fires, a key
    goes down, a button is pressed, the slider moves, the canvas is
    touched. *)
Inductive Control : Type :=
| Interval
| KeyDown (k : Key)
| ArrowButton (a : Arrow)
| Start
| Pause
| Reset
| Toggle
| Slider (v : Z)
| Restart
| Grow
| ResetHigh
| TouchStart (t : Point)
| TouchEnd (t : Point).

(** [NoCell]: the snake came to hold an object without coordinates. *)
Inductive ui_outcome : Type :=
| UiDone (u : Ui)
| UiTypeError
| UiOutOfFuel
| NoCell.

Definition engine (rnd : nat -> Z) (fuel : nat) (op : Op) (ui : Ui)
  : ui_outcome :=
  match run rnd fuel op (game ui) with
  | Done g => UiDone (mkUi g (touchStartRef ui))
  | TypeError => UiTypeError
  | OutOfFuel => UiOutOfFuel
  end.

Definition control (rnd : nat -> Z) (fuel : nat) (c : Control) (ui : Ui)
  : ui_outcome :=
  match c with
  | Interval => engine rnd fuel OpTick ui
  | KeyDown k => engine rnd fuel (OpKey k) ui
  | ArrowButton a => engine rnd fuel (OpDirection (arrow a)) ui
  | Start => engine rnd fuel OpStart ui
  | Pause => engine rnd fuel OpPause ui
  | Reset => engine rnd fuel OpReset ui
  | Toggle => engine rnd fuel OpToggle ui
  | Slider v => engine rnd fuel (OpSpeed v) ui
  | Restart => UiDone (mkUi (restart (game ui)) (touchStartRef ui))
  | Grow =>
      match grow (game ui) with
      | Some g => UiDone (mkUi g (touchStartRef ui))
      | None => NoCell
      end
  | ResetHigh => UiDone (mkUi (resetHigh (game ui)) (touchStartRef ui))
  | TouchStart t => UiDone (handleTouchStart t ui)
  | TouchEnd t => UiDone (handleTouchEnd t ui)
  end.

Fixpoint controls (rnd : nat -> Z) (fuel : nat) (cs : list Control)
  (ui : Ui) : ui_outcome :=
  match cs with
  | [] => UiDone ui
  | c :: cs' =>
      match control rnd fuel c ui with
      | UiDone ui' => controls rnd fuel cs' ui'
      | o => o
      end
  end.

(** The component right after mounting. *)
Definition mount (rnd : nat -> Z) (fuel : nat) (stored : option Z)
  (n : nat) : ui_outcome :=
  match initial rnd fuel stored n with
  | Done g => UiDone (mkUi g None)
  | TypeError => UiTypeError
  | OutOfFuel => UiOutOfFuel
  end.

Definition is_grow (c : Control) : bool :=
  match c with Grow => true | _ => false end.

Definition is_resetHigh (c : Control) : bool :=
  match c with ResetHigh => true | _ => false end.

(** ** Drawing a cell *)

Definition CELL_SIZE : Z := 20.
Definition CANVAS_SIZE : Z := GRID_SIZE * CELL_SIZE.

(** The canvas calls of [drawCell], with their arguments. *)
Inductive PathCmd : Type :=
| BeginPath
| MoveTo (px py : Z)
| LineTo (px py : Z)
| QuadraticCurveTo (cpx cpy px py : Z)
| ClosePath
| Fill.

(** [drawCell(ctx, x, y, size, radius)] *)
Definition drawCell (cx cy size radius : Z) : list PathCmd :=
  let px := cx * size in
  let py := cy * size in
  let r := radius in
  let w := size in
  let h := size in
  [ BeginPath;
    MoveTo (px + r) py;
    LineTo (px + w - r) py;
    QuadraticCurveTo (px + w) py (px + w) (py + r);
    LineTo (px + w) (py + h - r);
    QuadraticCurveTo (px + w) (py + h) (px + w - r) (py + h);
    LineTo (px + r) (py + h);
    QuadraticCurveTo px (py + h) px (py + h - r);
    LineTo px (py + r);
    QuadraticCurveTo px py (px + r) py;
    ClosePath;
    Fill ].

(** The points a call names: end points and control points. *)
Definition cmd_points (c : PathCmd) : list (Z * Z) :=
  match c with
  | MoveTo px py | LineTo px py => [(px, py)]
  | QuadraticCurveTo cpx cpy px py => [(cpx, cpy); (px, py)]
  | BeginPath | ClosePath | Fill => []
  end.

(** ** Invariants *)

(** [b] is one step away from [a] on the wrapped grid. *)
Definition neighbour (a b : Cell) : Prop :=
  exists d, is_direction d /\ new_head a d = b.

(** Each cell of the snake is one step away from the cell behind it. *)
Fixpoint contiguous (s : list Cell) : Prop :=
  match s with
  | a :: (b :: _) as t => neighbour b a /\ contiguous t
  | _ => True
  end.

(** Kept by every control. *)
Definition sound (st : GameState) : Prop :=
  snake st <> [] /\ Forall in_grid (snake st) /\ in_grid (food st) /\
  is_direction (direction st) /\ synced st.

(** Kept by every control but [Grow]. *)
Definition tidy (st : GameState) : Prop :=
  NoDup (snake st) /\ Z.of_nat (length (snake st)) = score st + 1 /\
  contiguous (snake st).

(** Kept by every control but [ResetHigh]. *)
Definition ranked (st : GameState) : Prop :=
  gameOver st = true -> score st <= highScore st.

(** The negated vector. *)
Definition negate (d : Direction) : Direction := mkPoint (- x d) (- y d).

(** A session that uses every kind of control. *)
Definition session : list Control :=
  [Start; Interval; Grow; TouchStart (mkPoint 100 100);
   TouchEnd (mkPoint 104 160); Interval; Slider 12; Interval;
   KeyDown ArrowLeft; Interval; ArrowButton GoUp; Interval; Pause; Toggle;
   Interval; ResetHigh; Restart; Interval].

(** A game without [Grow] and without [ResetHigh]: three meals, a curl
    onto the tail, then [Restart] and the same collision again. *)
Definition plain_session : list Control :=
  [Start; Interval; Interval; Interval; KeyDown ArrowDown; Interval;
   KeyDown ArrowLeft; Interval; KeyDown ArrowUp; Interval; Restart;
   Interval].

(** The scripted component right after mounting, and where the two
    sessions leave it. *)
Definition mounted : Ui :=
  mkUi (mkState [mkPoint 10 10] right_ (mkPoint 11 10) false 8 0 false 0
                None 2) None.

Definition session_end : Ui :=
  mkUi (mkState [mkPoint 10 9; mkPoint 10 10; mkPoint 10 11; mkPoint 10 12]
                up_ (mkPoint 12 10) true 12 1 false 0 (Some 0) 4) None.

Definition plain_end : Ui :=
  mkUi (mkState [mkPoint 12 11; mkPoint 13 11; mkPoint 13 10; mkPoint 12 10]
                up_ (mkPoint 0 0) false 8 3 true 3 (Some 3) 8) None.

(** A snake whose head is on the right edge, heading right. *)
Definition at_edge : GameState :=
  mkState [mkPoint 19 7; mkPoint 18 7] right_ (mkPoint 3 3) true 8 1 false
          0 None 4.

(** The speed after a control, given the speed before: only the slider
    writes it. *)
Definition slider_value (v : Z) (c : Control) : Z :=
  match c with Slider w => w | _ => v end.

(** The value of the last slider change among [cs], or [v0] when there
    is none. *)
Definition last_slider (cs : list Control) (v0 : Z) : Z :=
  fold_left slider_value cs v0.

(** * Properties *)

(** ** Membership tests *)

Lemma positionsEqual_eq (a b : Point) :
  positionsEqual a b = true <-> a = b.
Proof.
  unfold positionsEqual. rewrite andb_true_iff, !Z.eqb_eq.
  destruct a, b; simpl. split.
  - intros [-> ->]. reflexivity.
  - intros E. injection E. auto.
Qed.

Lemma hits_In (prev : list Cell) (head : Cell) :
  hits prev head = true <-> In head prev.
Proof.
  unfold hits. rewrite existsb_exists. split.
  - intros [p [Hp E]]. apply positionsEqual_eq in E. subst. exact Hp.
  - intros H. exists head. split; [exact H | now apply positionsEqual_eq].
Qed.

Lemma hits_not_In (prev : list Cell) (head : Cell) :
  hits prev head = false <-> ~ In head prev.
Proof.
  rewrite <- hits_In. destruct (hits prev head); split; congruence.
Qed.

Lemma excluded_In (exclude : list Cell) (cx cy : Z) :
  excluded exclude cx cy = true <-> In (mkPoint cx cy) exclude.
Proof.
  unfold excluded. rewrite existsb_exists. split.
  - intros [p [Hp E]]. rewrite andb_true_iff, !Z.eqb_eq in E.
    destruct p, E; simpl in *. subst. exact Hp.
  - intros H. exists (mkPoint cx cy). simpl. now rewrite !Z.eqb_refl.
Qed.

Lemma excluded_not_In (exclude : list Cell) (cx cy : Z) :
  excluded exclude cx cy = false <-> ~ In (mkPoint cx cy) exclude.
Proof.
  rewrite <- excluded_In. destruct (excluded exclude cx cy); split; congruence.
Qed.

(** ** The wrap-around *)

Lemma wrap_in_range (a d : Z) :
  0 <= a < GRID_SIZE -> -1 <= d <= 1 ->
  Z.rem (a + d + GRID_SIZE) GRID_SIZE = (a + d) mod GRID_SIZE /\
  0 <= Z.rem (a + d + GRID_SIZE) GRID_SIZE < GRID_SIZE.
Proof.
  unfold GRID_SIZE. intros Ha Hd.
  rewrite Z.rem_mod_nonneg by lia.
  replace (a + d + 20) with (a + d + 1 * 20) by lia.
  rewrite Z.mod_add by lia.
  split; [reflexivity | apply Z.mod_pos_bound; lia].
Qed.

Lemma direction_bounds (d : Direction) :
  is_direction d -> -1 <= x d <= 1 /\ -1 <= y d <= 1.
Proof.
  intros [-> | [-> | [-> | ->]]]; simpl; lia.
Qed.

Lemma new_head_in_grid (h : Cell) (d : Direction) :
  in_grid h -> is_direction d -> in_grid (new_head h d).
Proof.
  intros [Hx Hy] Hd. destruct (direction_bounds d Hd) as [Dx Dy].
  split; simpl; now apply wrap_in_range.
Qed.

(** ** The three branches of a tick *)

Section Branches.

Variable rnd : nat -> Z.

Lemma tick_collides (fuel : nat) (st : GameState) (h : Cell) (t : list Cell) :
  snake st = h :: t ->
  In (new_head h (direction st)) (snake st) ->
  tick rnd fuel st =
    Done (mkState (snake st) (direction st) (food st) false (speed st)
                  (score st) true (Z.max (highScore st) (score st))
                  (Some (Z.max (highScore st) (score st))) (drawn st)).
Proof.
  intros Hs Hin. apply hits_In in Hin.
  unfold tick. rewrite Hs in *. rewrite Hin. reflexivity.
Qed.

Lemma tick_moves (fuel : nat) (st : GameState) (h : Cell) (t : list Cell) :
  snake st = h :: t ->
  ~ In (new_head h (direction st)) (snake st) ->
  new_head h (direction st) <> food st ->
  tick rnd fuel st =
    Done (mkState (new_head h (direction st) :: removelast (snake st))
                  (direction st) (food st) (running st) (speed st)
                  (score st) (gameOver st) (highScore st)
                  (localStorage st) (drawn st)).
Proof.
  intros Hs Hin Hf. apply hits_not_In in Hin.
  assert (E : positionsEqual (new_head h (direction st)) (food st) = false).
  { destruct (positionsEqual _ _) eqn:E; [|reflexivity].
    apply positionsEqual_eq in E. contradiction. }
  unfold tick. rewrite Hs in *. rewrite Hin, E. reflexivity.
Qed.

Lemma tick_eats (fuel : nat) (st : GameState) (h : Cell) (t : list Cell) :
  snake st = h :: t ->
  ~ In (new_head h (direction st)) (snake st) ->
  new_head h (direction st) = food st ->
  tick rnd fuel st =
    match randomFoodPosition rnd fuel (drawn st)
                             (new_head h (direction st) :: snake st) with
    | None => OutOfFuel
    | Some (f, n') =>
        Done (mkState (new_head h (direction st) :: snake st) (direction st)
                      f (running st) (speed st) (score st + 1) (gameOver st)
                      (highScore st) (localStorage st) n')
    end.
Proof.
  intros Hs Hin Hf. apply hits_not_In in Hin.
  apply positionsEqual_eq in Hf.
  unfold tick. rewrite Hs in *. rewrite Hin, Hf. reflexivity.
Qed.

End Branches.

Lemma length_removelast_cons {A : Type} (a : A) (l : list A) :
  length (removelast (a :: l)) = length l.
Proof.
  revert a. induction l as [|b l IH]; intros a; [reflexivity|].
  change (removelast (a :: b :: l)) with (a :: removelast (b :: l)).
  cbn [length]. f_equal. apply IH.
Qed.

(** ** The sampling loop *)

Section Sampling.

Variable rnd : nat -> Z.

Lemma sample_free (fuel n : nat) (exclude : list Cell) (c : Cell) (n' : nat) :
  randomFoodPosition rnd fuel n exclude = Some (c, n') -> ~ In c exclude.
Proof.
  revert n. induction fuel as [|fuel IH]; intros n; simpl; [discriminate|].
  destruct (excluded exclude (rnd n) (rnd (S n))) eqn:E; simpl.
  - apply IH.
  - intros H. injection H as <- _. now apply excluded_not_In.
Qed.

Lemma sample_in_grid (fuel n : nat) (exclude : list Cell) (c : Cell) (n' : nat) :
  (forall i, 0 <= rnd i < GRID_SIZE) ->
  randomFoodPosition rnd fuel n exclude = Some (c, n') -> in_grid c.
Proof.
  intros R. revert n. induction fuel as [|fuel IH]; intros n; simpl;
    [discriminate|].
  destruct (excluded exclude (rnd n) (rnd (S n))); simpl.
  - apply IH.
  - intros H. injection H as <- _. split; apply R.
Qed.

Lemma sample_more_fuel (fuel fuel' n : nat) (exclude : list Cell)
  (r : Cell * nat) :
  (fuel <= fuel')%nat ->
  randomFoodPosition rnd fuel n exclude = Some r ->
  randomFoodPosition rnd fuel' n exclude = Some r.
Proof.
  revert fuel' n. induction fuel as [|fuel IH]; intros fuel' n Hle; simpl;
    [discriminate|].
  destruct fuel' as [|fuel']; [lia|]. simpl.
  destruct (excluded exclude (rnd n) (rnd (S n))); simpl.
  - apply IH. lia.
  - auto.
Qed.

Lemma sample_found (k n : nat) (exclude : list Cell) :
  excluded exclude (rnd (n + 2 * k)) (rnd (S (n + 2 * k))) = false ->
  exists r, randomFoodPosition rnd (S k) n exclude = Some r.
Proof.
  revert n. induction k as [|k IH]; intros n H.
  - replace (n + 2 * 0)%nat with n in H by lia.
    simpl. rewrite H. simpl. eauto.
  - replace (n + 2 * S k)%nat with (S (S n) + 2 * k)%nat in H by lia.
    change (randomFoodPosition rnd (S (S k)) n exclude)
      with (if negb (excluded exclude (rnd n) (rnd (S n)))
            then Some (mkPoint (rnd n) (rnd (S n)), S (S n))
            else randomFoodPosition rnd (S k) (S (S n)) exclude).
    destruct (excluded exclude (rnd n) (rnd (S n))); simpl negb; cbv iota.
    + apply IH, H.
    + eauto.
Qed.

Lemma sample_never (exclude : list Cell) :
  (forall i, excluded exclude (rnd i) (rnd (S i)) = true) ->
  forall fuel n, randomFoodPosition rnd fuel n exclude = None.
Proof.
  intros H fuel. induction fuel as [|fuel IH]; intros n; simpl;
    [reflexivity|].
  rewrite H. simpl. apply IH.
Qed.

Lemma sample_full_board (exclude : list Cell) :
  (forall i, 0 <= rnd i < GRID_SIZE) -> covers_grid exclude ->
  forall fuel n, randomFoodPosition rnd fuel n exclude = None.
Proof.
  intros R C. apply sample_never. intros i. apply C; apply R.
Qed.

Lemma sample_empty (fuel n : nat) :
  randomFoodPosition rnd (S fuel) n [] =
    Some (mkPoint (rnd n) (rnd (S n)), S (S n)).
Proof. reflexivity. Qed.

End Sampling.

(** A board with a free cell always admits draws that end the loop: the
    premise on the random source can be met exactly when the snake
    leaves a cell free. *)
Lemma free_cell_can_be_drawn (exclude : list Cell) (c : Cell) :
  in_grid c -> ~ In c exclude ->
  exists rnd,
    (forall i, 0 <= rnd i < GRID_SIZE) /\
    forall fuel, randomFoodPosition rnd (S fuel) 0 exclude = Some (c, 2%nat).
Proof.
  intros [Gx Gy] Hc. destruct c as [cx cy]. simpl in *.
  exists (fun i => if Nat.even i then cx else cy). split.
  - intros i. destruct (Nat.even i); assumption.
  - intros fuel. apply excluded_not_In in Hc. simpl. rewrite Hc. reflexivity.
Qed.

Lemma all_cells_complete (cx cy : Z) :
  0 <= cx < GRID_SIZE -> 0 <= cy < GRID_SIZE -> In (mkPoint cx cy) all_cells.
Proof.
  unfold GRID_SIZE, all_cells. intros Hx Hy.
  apply in_flat_map. exists (Z.to_nat cx). split.
  - apply in_seq. lia.
  - apply in_map_iff. exists (Z.to_nat cy). split.
    + now rewrite !Z2Nat.id by lia.
    + apply in_seq. lia.
Qed.

Lemma covers_gridb_sound (exclude : list Cell) :
  covers_gridb exclude = true -> covers_grid exclude.
Proof.
  unfold covers_gridb. rewrite forallb_forall. intros H cx cy Hx Hy.
  apply (H (mkPoint cx cy)). now apply all_cells_complete.
Qed.

Lemma cycle_range (i : nat) : 0 <= cycle i < GRID_SIZE.
Proof.
  unfold cycle, GRID_SIZE.
  assert (i mod 20 < 20)%nat by (apply Nat.mod_upper_bound; lia). lia.
Qed.

Lemma last_In {A : Type} (l : list A) (d : A) :
  l <> [] -> In (last l d) l.
Proof.
  induction l as [|a l IH]; intros H; [contradiction|].
  destruct l as [|b l]; [now left|].
  right. apply IH. discriminate.
Qed.

(** ** The claims about a tick *)

(** C1: a tick whose new head lies on the snake leaves the snake, the
    food and the score as they are; it sets [running] to false,
    [gameOver] to true and the high score (the state cell and the stored
    entry) to [max(highScore, score)], and changes nothing else. *)
Theorem collision_tick_frame (rnd : nat -> Z) (fuel : nat) (st : GameState)
  (h : Cell) (t : list Cell) :
  snake st = h :: t ->
  In (new_head h (direction st)) (snake st) ->
  exists st',
    tick rnd fuel st = Done st' /\
    snake st' = snake st /\ food st' = food st /\ score st' = score st /\
    running st' = false /\ gameOver st' = true /\
    highScore st' = Z.max (highScore st) (score st) /\
    localStorage st' = Some (Z.max (highScore st) (score st)) /\
    direction st' = direction st /\ speed st' = speed st /\
    drawn st' = drawn st.
Proof.
  intros Hs Hin. eexists. split.
  - apply (tick_collides rnd fuel st h t Hs Hin).
  - simpl. repeat split.
Qed.

Lemma collision_tick_frame_witness :
  exists st',
    tick cycle 0 curled = Done st' /\
    snake st' = snake curled /\ food st' = food curled /\
    score st' = score curled /\
    running st' = false /\ gameOver st' = true /\
    highScore st' = Z.max (highScore curled) (score curled) /\
    localStorage st' = Some (Z.max (highScore curled) (score curled)) /\
    direction st' = direction curled /\ speed st' = speed curled /\
    drawn st' = drawn curled.
Proof.
  apply (collision_tick_frame cycle 0 curled (mkPoint 5 5)
           [mkPoint 5 6; mkPoint 4 6; mkPoint 4 5]).
  - reflexivity.
  - simpl. auto.
Defined.

(** C5: a tick whose new head is neither on the snake nor on the food
    yields the new head followed by the old body without its last cell,
    so the length is kept; the food, the score and the rest stay.  For
    the snake (5,5),(4,5),(3,5) heading right this is
    (6,5),(5,5),(4,5). *)
Theorem move_tick_shifts (rnd : nat -> Z) (fuel : nat) (st : GameState)
  (h : Cell) (t : list Cell) :
  snake st = h :: t ->
  ~ In (new_head h (direction st)) (snake st) ->
  new_head h (direction st) <> food st ->
  exists st',
    tick rnd fuel st = Done st' /\
    snake st' = new_head h (direction st) :: removelast (snake st) /\
    length (snake st') = length (snake st) /\
    food st' = food st /\ score st' = score st /\
    running st' = running st /\ gameOver st' = gameOver st /\
    highScore st' = highScore st /\
    (snake st = [mkPoint 5 5; mkPoint 4 5; mkPoint 3 5] ->
     direction st = right_ ->
     snake st' = [mkPoint 6 5; mkPoint 5 5; mkPoint 4 5]).
Proof.
  intros Hs Hin Hf. eexists. split.
  - apply (tick_moves rnd fuel st h t Hs Hin Hf).
  - simpl. repeat split.
    + rewrite Hs. simpl length. f_equal. apply length_removelast_cons.
    + intros E D. rewrite E in Hs. injection Hs as <- _.
      rewrite E, D. reflexivity.
Qed.

Lemma move_tick_shifts_witness :
  exists st',
    tick cycle 0 straight = Done st' /\
    snake st' = mkPoint 6 5 :: removelast (snake straight) /\
    length (snake st') = length (snake straight) /\
    food st' = food straight /\ score st' = score straight /\
    running st' = running straight /\ gameOver st' = gameOver straight /\
    highScore st' = highScore straight /\
    (snake straight = [mkPoint 5 5; mkPoint 4 5; mkPoint 3 5] ->
     direction straight = right_ ->
     snake st' = [mkPoint 6 5; mkPoint 5 5; mkPoint 4 5]).
Proof.
  apply (move_tick_shifts cycle 0 straight (mkPoint 5 5)
           [mkPoint 4 5; mkPoint 3 5]).
  - reflexivity.
  - simpl. intros [E | [E | [E | []]]]; discriminate E.
  - simpl. discriminate.
Defined.

(** C10: the collision scan runs over the whole body before the move,
    tail included: when the new head is the cell of the current tail (a
    snake of two cells or more), the tick ends the game and the snake
    stays where it was. *)
Theorem tail_cell_collides (rnd : nat -> Z) (fuel : nat) (st : GameState)
  (h : Cell) (t : list Cell) :
  snake st = h :: t ->
  (2 <= length (snake st))%nat ->
  new_head h (direction st) = last (snake st) h ->
  exists st',
    tick rnd fuel st = Done st' /\
    gameOver st' = true /\ running st' = false /\ snake st' = snake st.
Proof.
  intros Hs _ Hl.
  assert (Hin : In (new_head h (direction st)) (snake st)).
  { rewrite Hl. apply last_In. rewrite Hs. discriminate. }
  eexists. split.
  - apply (tick_collides rnd fuel st h t Hs Hin).
  - simpl. repeat split.
Qed.

Lemma tail_cell_collides_witness :
  exists st',
    tick cycle 0 curled = Done st' /\
    gameOver st' = true /\ running st' = false /\ snake st' = snake curled.
Proof.
  apply (tail_cell_collides cycle 0 curled (mkPoint 5 5)
           [mkPoint 5 6; mkPoint 4 6; mkPoint 4 5]).
  - reflexivity.
  - simpl. lia.
  - reflexivity.
Defined.

(** C6: the new head is the head plus the direction, each coordinate
    reduced modulo the grid size; it lies on the grid; a head on an edge
    moving outwards re-enters on the opposite edge with the other
    coordinate kept; and every tick works on that cell: a tick that
    moves returns with it in front of the old body less its last cell, a
    tick that eats returns (once a free cell is drawn) with it in front
    of the whole old body, and a tick that finds it on the body returns
    with the game over. *)
Theorem head_wraps_around (h : Cell) (d : Direction) :
  in_grid h -> is_direction d ->
  new_head h d =
    mkPoint ((x h + x d) mod GRID_SIZE) ((y h + y d) mod GRID_SIZE) /\
  in_grid (new_head h d) /\
  (x h = GRID_SIZE - 1 -> d = right_ -> new_head h d = mkPoint 0 (y h)) /\
  (x h = 0 -> d = left_ -> new_head h d = mkPoint (GRID_SIZE - 1) (y h)) /\
  (y h = GRID_SIZE - 1 -> d = down_ -> new_head h d = mkPoint (x h) 0) /\
  (y h = 0 -> d = up_ -> new_head h d = mkPoint (x h) (GRID_SIZE - 1)) /\
  (forall rnd fuel st st' t,
     snake st = h :: t -> direction st = d ->
     ~ In (new_head h d) (snake st) ->
     tick rnd fuel st = Done st' ->
     exists t', snake st' = new_head h d :: t') /\
  (forall rnd fuel st t,
     snake st = h :: t -> direction st = d ->
     ~ In (new_head h d) (snake st) -> new_head h d <> food st ->
     exists st',
       tick rnd fuel st = Done st' /\
       snake st' = new_head h d :: removelast (snake st)) /\
  (forall rnd st t k,
     snake st = h :: t -> direction st = d ->
     ~ In (new_head h d) (snake st) -> new_head h d = food st ->
     excluded (new_head h d :: snake st)
              (rnd (drawn st + 2 * k)%nat)
              (rnd (S (drawn st + 2 * k))) = false ->
     exists st',
       (forall fuel, (k < fuel)%nat -> tick rnd fuel st = Done st') /\
       snake st' = new_head h d :: snake st) /\
  (forall rnd fuel st t,
     snake st = h :: t -> direction st = d ->
     In (new_head h d) (snake st) ->
     exists st',
       tick rnd fuel st = Done st' /\
       gameOver st' = true /\ snake st' = snake st).
Proof.
  intros G D. destruct (direction_bounds d D) as [Dx Dy].
  destruct G as [Gx Gy].
  destruct (wrap_in_range (x h) (x d) Gx Dx) as [Ex Rx].
  destruct (wrap_in_range (y h) (y d) Gy Dy) as [Ey Ry].
  assert (E : new_head h d =
    mkPoint ((x h + x d) mod GRID_SIZE) ((y h + y d) mod GRID_SIZE)).
  { unfold new_head. now rewrite Ex, Ey. }
  split; [exact E|]. split; [split; assumption|].
  unfold GRID_SIZE in *.
  split.
  { intros Hx ->. rewrite E. simpl. rewrite Hx. f_equal.
    replace (y h + 0) with (y h) by lia. apply Z.mod_small; lia. }
  split.
  { intros Hx ->. rewrite E. simpl. rewrite Hx. f_equal.
    replace (y h + 0) with (y h) by lia. apply Z.mod_small; lia. }
  split.
  { intros Hy ->. rewrite E. simpl. rewrite Hy. f_equal.
    replace (x h + 0) with (x h) by lia. apply Z.mod_small; lia. }
  split.
  { intros Hy ->. rewrite E. simpl. rewrite Hy. f_equal.
    replace (x h + 0) with (x h) by lia. apply Z.mod_small; lia. }
  split.
  { intros rnd fuel st st' t Hs Hd Hin Ht. subst d.
    destruct (positionsEqual (new_head h (direction st)) (food st)) eqn:F.
    + apply positionsEqual_eq in F.
      rewrite (tick_eats rnd fuel st h t Hs Hin F) in Ht.
      destruct (randomFoodPosition _ _ _ _) as [[f n']|]; [|discriminate].
      injection Ht as <-. simpl. eauto.
    + assert (F' : new_head h (direction st) <> food st).
      { intros C. apply positionsEqual_eq in C. congruence. }
      rewrite (tick_moves rnd fuel st h t Hs Hin F') in Ht.
      injection Ht as <-. simpl. eauto. }
  split.
  { intros rnd fuel st t Hs Hd Hin Hf. subst d. eexists. split.
    - apply (tick_moves rnd fuel st h t Hs Hin Hf).
    - reflexivity. }
  split.
  { intros rnd st t k Hs Hd Hin Hf Hk. subst d.
    destruct (sample_found rnd k (drawn st) _ Hk) as [[f n'] Hr].
    exists (mkState (new_head h (direction st) :: snake st) (direction st)
                    f (running st) (speed st) (score st + 1) (gameOver st)
                    (highScore st) (localStorage st) n').
    split; [|reflexivity].
    intros fuel Hlt. rewrite (tick_eats rnd fuel st h t Hs Hin Hf).
    rewrite (sample_more_fuel rnd (S k) fuel _ _ _ ltac:(lia) Hr).
    reflexivity. }
  intros rnd fuel st t Hs Hd Hin. subst d. eexists. split.
  - apply (tick_collides rnd fuel st h t Hs Hin).
  - split; reflexivity.
Qed.

Lemma head_wraps_around_witness :
  new_head (mkPoint 19 7) right_ = mkPoint 0 7 /\
  in_grid (new_head (mkPoint 19 7) right_) /\
  exists st',
    tick cycle 0 at_edge = Done st' /\
    snake st' = [mkPoint 0 7; mkPoint 19 7].
Proof.
  assert (G : in_grid (mkPoint 19 7)) by (unfold in_grid, GRID_SIZE; simpl; lia).
  assert (D : is_direction right_) by (left; reflexivity).
  destruct (head_wraps_around (mkPoint 19 7) right_ G D)
    as [_ [I [W [_ [_ [_ [_ [M _]]]]]]]].
  split; [apply W; reflexivity|].
  split; [exact I|].
  apply (M cycle 0%nat at_edge [mkPoint 18 7]).
  - reflexivity.
  - reflexivity.
  - simpl. intros [E | [E | []]]; discriminate E.
  - simpl. discriminate.
Defined.

(** ** Eating *)

(** C2, as the code has it: when the new head is the food cell and not
    on the snake, and the random source comes to draw (at its k-th
    round) a cell off the grown snake, the tick returns with the score
    one higher, the snake one cell longer (new head in front, tail kept)
    and a new food cell that is on no cell of the grown snake; nothing
    else changes. *)
Theorem eat_tick_grows (rnd : nat -> Z) (st : GameState) (h : Cell)
  (t : list Cell) (k : nat) :
  snake st = h :: t ->
  ~ In (new_head h (direction st)) (snake st) ->
  new_head h (direction st) = food st ->
  excluded (new_head h (direction st) :: snake st)
           (rnd (drawn st + 2 * k)%nat) (rnd (S (drawn st + 2 * k))) = false ->
  exists st',
    (forall fuel, (k < fuel)%nat -> tick rnd fuel st = Done st') /\
    score st' = score st + 1 /\
    snake st' = new_head h (direction st) :: snake st /\
    length (snake st') = S (length (snake st)) /\
    ~ In (food st') (snake st') /\
    direction st' = direction st /\ running st' = running st /\
    gameOver st' = gameOver st /\ highScore st' = highScore st.
Proof.
  intros Hs Hin Hf Hk.
  destruct (sample_found rnd k (drawn st) _ Hk) as [[f n'] Hr].
  exists (mkState (new_head h (direction st) :: snake st) (direction st)
                  f (running st) (speed st) (score st + 1) (gameOver st)
                  (highScore st) (localStorage st) n').
  split.
  - intros fuel Hlt. rewrite (tick_eats rnd fuel st h t Hs Hin Hf).
    rewrite (sample_more_fuel rnd (S k) fuel _ _ _ ltac:(lia) Hr).
    reflexivity.
  - simpl. repeat split. exact (sample_free rnd _ _ _ _ _ Hr).
Qed.

Lemma eat_tick_grows_witness :
  exists st',
    (forall fuel, (0 < fuel)%nat ->
                  tick cycle fuel (fresh (mkPoint 11 10)) = Done st') /\
    score st' = 1 /\
    snake st' = [mkPoint 11 10; mkPoint 10 10] /\
    length (snake st') = 2%nat /\
    ~ In (food st') (snake st') /\
    direction st' = right_ /\ running st' = false /\
    gameOver st' = false /\ highScore st' = 0.
Proof.
  apply (eat_tick_grows cycle (fresh (mkPoint 11 10)) (mkPoint 10 10) [] 0).
  - reflexivity.
  - simpl. intros [E | []]. discriminate E.
  - reflexivity.
  - reflexivity.
Defined.

Lemma tick_full_board (rnd : nat -> Z) (st : GameState) (h : Cell)
  (t : list Cell) :
  snake st = h :: t ->
  hits (snake st) (new_head h (direction st)) = false ->
  positionsEqual (new_head h (direction st)) (food st) = true ->
  (forall i, 0 <= rnd i < GRID_SIZE) ->
  covers_gridb (new_head h (direction st) :: snake st) = true ->
  forall fuel, tick rnd fuel st = OutOfFuel.
Proof.
  intros Hs Hh Hf R C fuel.
  apply hits_not_In in Hh. apply positionsEqual_eq in Hf.
  rewrite (tick_eats rnd fuel st h t Hs Hh Hf).
  rewrite (sample_full_board rnd _ R (covers_gridb_sound _ C)).
  reflexivity.
Qed.

(** C2 as stated fails on a board the grown snake fills: the head steps
    on the food in the last free cell, no collision, yet no amount of
    fuel lets the tick return, so no score or snake is ever committed. *)
Lemma eat_tick_full_board_hangs :
  hits (snake almost_full)
       (new_head (sweep 398) (direction almost_full)) = false /\
  positionsEqual (new_head (sweep 398) (direction almost_full))
                 (food almost_full) = true /\
  hd (mkPoint 0 0) (snake almost_full) = sweep 398 /\
  ~ exists fuel st', tick cycle fuel almost_full = Done st'.
Proof.
  split; [vm_compute; reflexivity|].
  split; [vm_compute; reflexivity|].
  split; [vm_compute; reflexivity|].
  intros [fuel [st' H]].
  rewrite (tick_full_board cycle almost_full (sweep 398)
             (map sweep (rev (seq 0 398)))) in H.
  - discriminate H.
  - vm_compute. reflexivity.
  - vm_compute. reflexivity.
  - vm_compute. reflexivity.
  - apply cycle_range.
  - vm_compute. reflexivity.
Qed.

(** ** Placing food *)

(** C7, as the code has it: whatever the loop returns is a cell off
    [exclude]; it returns as soon as the random source draws such a
    cell; and when [exclude] holds every cell of the grid it never
    returns: there is no outcome for a full board, the sampling simply
    goes on. *)
Theorem food_placement_outcome (rnd : nat -> Z) (n : nat)
  (exclude : list Cell) :
  (forall fuel c n',
     randomFoodPosition rnd fuel n exclude = Some (c, n') ->
     ~ In c exclude) /\
  (forall k,
     excluded exclude (rnd (n + 2 * k)%nat) (rnd (S (n + 2 * k))) = false ->
     exists c n',
       (forall fuel, (k < fuel)%nat ->
                     randomFoodPosition rnd fuel n exclude = Some (c, n')) /\
       ~ In c exclude) /\
  ((forall i, 0 <= rnd i < GRID_SIZE) -> covers_grid exclude ->
   forall fuel, randomFoodPosition rnd fuel n exclude = None).
Proof.
  split; [|split].
  - intros fuel c n'. apply sample_free.
  - intros k Hk. destruct (sample_found rnd k n exclude Hk) as [[c n'] Hr].
    exists c, n'. split.
    + intros fuel Hlt. apply (sample_more_fuel rnd (S k)); [lia | exact Hr].
    + exact (sample_free rnd _ _ _ _ _ Hr).
  - intros R C fuel. now apply sample_full_board.
Qed.

Lemma food_placement_outcome_witness :
  (exists c n',
     (forall fuel, (0 < fuel)%nat ->
                   randomFoodPosition cycle fuel 0 [center] = Some (c, n')) /\
     ~ In c [center]) /\
  (forall fuel, randomFoodPosition cycle fuel 0 (sweep_snake 400) = None).
Proof.
  split.
  - apply (proj1 (proj2 (food_placement_outcome cycle 0 [center])) 0%nat).
    reflexivity.
  - apply (proj2 (proj2 (food_placement_outcome cycle 0 (sweep_snake 400)))).
    + apply cycle_range.
    + apply covers_gridb_sound. vm_compute. reflexivity.
Defined.

(** C7 as stated fails when the snake lies on all 400 cells: the
    placement returns nothing, whatever the fuel, and its result type
    has no value that would report a full board. *)
Lemma food_placement_full_board_loops :
  covers_gridb (sweep_snake 400) = true /\
  ~ exists fuel r, randomFoodPosition cycle fuel 0 (sweep_snake 400) = Some r.
Proof.
  split; [vm_compute; reflexivity|].
  intros [fuel [r H]].
  rewrite (sample_full_board cycle (sweep_snake 400)) in H.
  - discriminate H.
  - apply cycle_range.
  - apply covers_gridb_sound. vm_compute. reflexivity.
Qed.

(** C4 at creation and at reset: both call [randomFoodPosition()]
    without the snake, so a draw of (10,10) puts the food on the
    one-cell snake at the centre. *)
Theorem food_on_snake_at_reset :
  (exists st', initial tens 1 None 0 = Done st' /\
               snake st' = [mkPoint 10 10] /\ food st' = mkPoint 10 10 /\
               In (food st') (snake st')) /\
  (forall st, exists st', resetGame tens 1 st = Done st' /\
               snake st' = [mkPoint 10 10] /\ food st' = mkPoint 10 10 /\
               In (food st') (snake st')).
Proof.
  split.
  - eexists. split; [reflexivity|]. simpl. repeat split. now left.
  - intros st. eexists. split; [reflexivity|]. simpl. repeat split. now left.
Qed.

(** ** Direction requests *)

Lemma turn_is_direction (d p : Direction) :
  is_direction d -> is_direction p -> is_direction (turn d p).
Proof.
  intros Hd Hp. unfold turn. now destruct (oppositeDirection p d).
Qed.

Lemma turn_not_reverse (d p : Direction) :
  is_direction p -> oppositeDirection p (turn d p) = false.
Proof.
  intros Hp. unfold turn. destruct (oppositeDirection p d) eqn:E; simpl.
  - destruct Hp as [-> | [-> | [-> | ->]]]; reflexivity.
  - exact E.
Qed.

Lemma requests_is_direction (ds : list Direction) (a : Direction) :
  is_direction a -> Forall is_direction ds -> is_direction (requests ds a).
Proof.
  intros Ha Hds. revert a Ha.
  induction Hds as [|d ds Hd _ IH]; intros a Ha; simpl; [exact Ha|].
  apply IH. now apply turn_is_direction.
Qed.

(** C3, as the code has it: a request changes nothing but the one
    [direction] cell, which the next tick reads; it is tested against
    the current content of that cell, that is against the last accepted
    request if there is one: a request opposite to it is dropped, any
    other replaces it.  So one request never reverses the direction it
    meets, whatever requests came before it. *)
Theorem direction_request_tested_against_current (st : GameState)
  (d : Direction) (ds : list Direction) :
  is_direction (direction st) -> is_direction d -> Forall is_direction ds ->
  let st' := setDirection d st in
  (oppositeDirection (direction st) d = true ->
   direction st' = direction st) /\
  (oppositeDirection (direction st) d = false -> direction st' = d) /\
  oppositeDirection (direction st) (direction st') = false /\
  snake st' = snake st /\ food st' = food st /\ score st' = score st /\
  running st' = running st /\ gameOver st' = gameOver st /\
  highScore st' = highScore st /\ speed st' = speed st /\
  localStorage st' = localStorage st /\ drawn st' = drawn st /\
  (let p := requests ds (direction st) in
   is_direction p /\
   requests (ds ++ [d]) (direction st) = turn d p /\
   oppositeDirection p (turn d p) = false) /\
  (forall k, running st = true ->
     onKey k st = match k with
                  | ArrowUp => setDirection up_ st
                  | ArrowDown => setDirection down_ st
                  | ArrowLeft => setDirection left_ st
                  | ArrowRight => setDirection right_ st
                  | Space => toggleRunning st
                  | OtherKey => st
                  end).
Proof.
  intros Ha Hd Hds. simpl.
  split; [intros E; unfold turn; now rewrite E|].
  split; [intros E; unfold turn; now rewrite E|].
  split; [now apply turn_not_reverse|].
  repeat split.
  - now apply requests_is_direction.
  - unfold requests. now rewrite fold_left_app.
  - apply turn_not_reverse. now apply requests_is_direction.
  - intros k R. unfold onKey. now rewrite R.
Qed.

Lemma direction_request_tested_against_current_witness :
  direction (setDirection left_ straight) = right_ /\
  direction (setDirection up_ straight) = up_ /\
  requests [up_; left_] right_ = left_.
Proof.
  assert (Ha : is_direction (direction straight)) by (left; reflexivity).
  assert (Hl : is_direction left_) by (right; left; reflexivity).
  assert (Hu : is_direction up_) by (right; right; right; reflexivity).
  destruct (direction_request_tested_against_current straight left_ [up_]
              Ha Hl (Forall_cons _ Hu (Forall_nil _)))
    as [Rej [_ [_ [_ [_ [_ [_ [_ [_ [_ [_ [_ [[_ [Seq _]] _]]]]]]]]]]]]].
  destruct (direction_request_tested_against_current straight up_ []
              Ha Hu (Forall_nil _))
    as [_ [Acc _]].
  split; [apply Rej; reflexivity|].
  split; [apply Acc; reflexivity|].
  exact Seq.
Defined.

(** C3 as stated fails for the pair up, left while heading right: the
    second request is the opposite of the direction of the last tick,
    yet it is tested against the pending [up_] and accepted, and the
    next tick drives the head back onto the body. *)
Lemma double_request_reverses :
  direction straight = right_ /\
  oppositeDirection (direction straight) left_ = true /\
  direction after_up = up_ /\
  direction after_up_left = left_ /\
  direction after_up_left <> direction after_up /\
  oppositeDirection (direction straight) (direction after_up_left) = true /\
  requests [up_; left_] (direction straight) = left_ /\
  new_head (mkPoint 5 5) (direction after_up_left) = mkPoint 4 5 /\
  exists st', tick cycle 0 after_up_left = Done st' /\ gameOver st' = true.
Proof.
  repeat split; try reflexivity.
  - discriminate.
  - eexists. split; reflexivity.
Qed.

(** ** The high score *)

Lemma run_high_score (rnd : nat -> Z) (fuel : nat) (op : Op)
  (st st' : GameState) :
  run rnd fuel op st = Done st' ->
  (highScore st' = highScore st /\ localStorage st' = localStorage st) \/
  (highScore st' = Z.max (highScore st) (score st) /\
   localStorage st' = Some (Z.max (highScore st) (score st))).
Proof.
  destruct op; simpl.
  - unfold game_loop. destruct (negb (running st) || gameOver st).
    + intros H. injection H as <-. now left.
    + unfold tick. destruct (snake st) as [|h t]; [discriminate|].
      destruct (hits _ _).
      * intros H. injection H as <-. now right.
      * destruct (negb _).
        -- intros H. injection H as <-. now left.
        -- destruct (randomFoodPosition _ _ _ _) as [[f n']|];
             [|discriminate].
           intros H. injection H as <-. now left.
  - intros H. injection H as <-. left. unfold onKey.
    destruct (negb (running st)); [now split|]. destruct k; now split.
  - intros H. injection H as <-. now left.
  - unfold handleStart, resetGame. destruct (gameOver st).
    + destruct (randomFoodPosition _ _ _ _) as [[f n']|]; [|discriminate].
      intros H. injection H as <-. now left.
    + intros H. injection H as <-. now left.
  - intros H. injection H as <-. now left.
  - unfold resetGame.
    destruct (randomFoodPosition _ _ _ _) as [[f n']|]; [|discriminate].
    intros H. injection H as <-. now left.
  - intros H. injection H as <-. now left.
  - intros H. injection H as <-. now left.
Qed.

(** C8: no operation of the engine lowers the high score, neither the
    state cell nor the stored entry, and the two stay in step; a
    collision makes it [max(highScore, score)]; [resetGame] returns and
    leaves it alone; in the scripted session it goes from 0 to 3 at the
    end of a game scoring 3 and stays 3 after a game scoring 1. *)
Theorem high_score_never_decreases (rnd : nat -> Z) (fuel : nat) (op : Op)
  (st st' : GameState) :
  synced st ->
  run rnd fuel op st = Done st' ->
  highScore st <= highScore st' /\
  getHighScore st <= getHighScore st' /\
  synced st' /\
  (forall h t,
     op = OpTick -> running st = true -> gameOver st = false ->
     snake st = h :: t -> In (new_head h (direction st)) (snake st) ->
     highScore st' = Z.max (highScore st) (score st) /\
     getHighScore st' = Z.max (highScore st) (score st)) /\
  (op = OpReset ->
   highScore st' = highScore st /\ localStorage st' = localStorage st) /\
  (exists s, resetGame rnd (S fuel) st = Done s /\
             highScore s = highScore st /\
             localStorage s = localStorage st) /\
  (exists s0 s1 s2,
     initial script 1 None 0 = Done s0 /\ highScore s0 = 0 /\
     run_all script 1 first_game s0 = Done s1 /\
     score s1 = 3 /\ gameOver s1 = true /\
     highScore s1 = 3 /\ localStorage s1 = Some 3 /\
     run_all script 1 second_game s1 = Done s2 /\
     score s2 = 1 /\ gameOver s2 = true /\
     highScore s2 = 3 /\ localStorage s2 = Some 3).
Proof.
  intros Sy Hr. unfold synced, getHighScore in *.
  pose proof (run_high_score rnd fuel op st st' Hr) as Hs.
  split; [destruct Hs as [[-> _] | [-> _]]; lia|].
  split; [destruct Hs as [[_ ->] | [_ ->]]; lia|].
  split; [destruct Hs as [[-> ->] | [-> ->]]; [exact Sy | reflexivity]|].
  split.
  { intros h t -> R G Hsn Hin. simpl in Hr. unfold game_loop in Hr.
    rewrite R, G in Hr. simpl in Hr.
    rewrite (tick_collides rnd fuel st h t Hsn Hin) in Hr.
    injection Hr as <-. simpl. split; reflexivity. }
  split.
  { intros ->. simpl in Hr. unfold resetGame in Hr.
    destruct (randomFoodPosition _ _ _ _) as [[f n']|]; [|discriminate].
    injection Hr as <-. simpl. split; reflexivity. }
  split.
  { eexists. unfold resetGame. rewrite sample_empty. simpl.
    repeat split. }
  do 3 eexists.
  split; [reflexivity|]. split; [reflexivity|].
  split; [vm_compute; reflexivity|].
  simpl. repeat split.
Qed.

Lemma high_score_never_decreases_witness :
  highScore curled <= highScore curled_over /\
  getHighScore curled <= getHighScore curled_over /\
  highScore curled_over = Z.max (highScore curled) (score curled).
Proof.
  assert (Sy : synced curled) by reflexivity.
  assert (Hr : run cycle 0 OpTick curled = Done curled_over) by reflexivity.
  destruct (high_score_never_decreases cycle 0 OpTick curled curled_over
              Sy Hr) as [A [B [_ [C _]]]].
  split; [exact A|]. split; [exact B|].
  apply (C (mkPoint 5 5) [mkPoint 5 6; mkPoint 4 6; mkPoint 4 5]).
  - reflexivity.
  - reflexivity.
  - reflexivity.
  - reflexivity.
  - simpl. auto.
Defined.

(** The [Reset High] button is outside the engine's operations: it
    writes 0 whatever the value was. *)
Lemma resetHigh_zero (st : GameState) :
  highScore (resetHigh st) = 0 /\ localStorage (resetHigh st) = Some 0.
Proof. split; reflexivity. Qed.

(** ** The speed *)

(** C9, as the code has it: the handler stores the requested rate as
    it comes, never fails and touches nothing but the speed; the bounds
    3 and 20 are those the range control declares, and the stored rate
    lies within them exactly when the requested rate does: the code
    clamps nothing. *)
Theorem speed_stored_as_requested (v : Z) (st : GameState) :
  speed (onSpeedChange v st) = v /\
  min (speed_input (onSpeedChange v st)) = 3 /\
  max (speed_input (onSpeedChange v st)) = 20 /\
  (3 <= v <= 20 -> 3 <= speed (onSpeedChange v st) <= 20) /\
  (3 <= speed (onSpeedChange v st) <= 20 -> 3 <= v <= 20) /\
  snake (onSpeedChange v st) = snake st /\
  direction (onSpeedChange v st) = direction st /\
  food (onSpeedChange v st) = food st /\
  score (onSpeedChange v st) = score st /\
  running (onSpeedChange v st) = running st /\
  gameOver (onSpeedChange v st) = gameOver st /\
  highScore (onSpeedChange v st) = highScore st /\
  localStorage (onSpeedChange v st) = localStorage st /\
  drawn (onSpeedChange v st) = drawn st.
Proof.
  unfold onSpeedChange, setSpeed, speed_input. simpl.
  repeat split; intros; lia.
Qed.

Lemma speed_stored_as_requested_witness :
  speed (onSpeedChange 7 straight) = 7 /\
  3 <= speed (onSpeedChange 7 straight) <= 20.
Proof.
  destruct (speed_stored_as_requested 7 straight) as [E [_ [_ [B _]]]].
  split; [exact E | apply B; lia].
Defined.

(** C9 as stated fails for a request outside the bounds: 25 is stored
    as 25 and 1 as 1, above the declared maximum and below the declared
    minimum. *)
Lemma speed_request_not_clamped :
  speed (onSpeedChange 25 straight) = 25 /\
  max (speed_input (onSpeedChange 25 straight)) = 20 /\
  ~ speed (onSpeedChange 25 straight)
    <= max (speed_input (onSpeedChange 25 straight)) /\
  speed (onSpeedChange 1 straight) = 1 /\
  min (speed_input (onSpeedChange 1 straight)) = 3 /\
  ~ min (speed_input (onSpeedChange 1 straight))
    <= speed (onSpeedChange 1 straight).
Proof.
  simpl. repeat split; lia.
Qed.

(** * The rest of the component *)

(** ** Lists without their last element *)

Lemma removelast_cons2 {A : Type} (a b : A) (l : list A) :
  removelast (a :: b :: l) = a :: removelast (b :: l).
Proof. reflexivity. Qed.

Lemma In_removelast {A : Type} (a : A) (l : list A) :
  In a (removelast l) -> In a l.
Proof.
  induction l as [|b l IH]; [auto|].
  destruct l as [|c l]; [intros []|].
  rewrite removelast_cons2. intros [E | H]; [now left | right; auto].
Qed.

Lemma NoDup_removelast {A : Type} (l : list A) :
  NoDup l -> NoDup (removelast l).
Proof.
  induction 1 as [|a l Hn Hd IH]; [constructor|].
  destruct l as [|b l]; [constructor|].
  rewrite removelast_cons2. constructor; [|exact IH].
  intros H. apply Hn. now apply In_removelast.
Qed.

Lemma Forall_removelast {A : Type} (P : A -> Prop) (l : list A) :
  Forall P l -> Forall P (removelast l).
Proof.
  rewrite !Forall_forall. intros H a Ha. apply H. now apply In_removelast.
Qed.

Lemma contiguous_removelast (s : list Cell) :
  contiguous s -> contiguous (removelast s).
Proof.
  induction s as [|a s IH]; [auto|].
  destruct s as [|b s]; [auto|].
  rewrite removelast_cons2. intros [N C].
  destruct s as [|c s]; [exact I|].
  rewrite removelast_cons2 in *. split; [exact N | exact (IH C)].
Qed.

(** ** One tick, by cases *)

Lemma tick_cases (rnd : nat -> Z) (fuel : nat) (st st' : GameState)
  (h : Cell) (t : list Cell) :
  snake st = h :: t ->
  tick rnd fuel st = Done st' ->
  (In (new_head h (direction st)) (snake st) /\
   st' = mkState (snake st) (direction st) (food st) false (speed st)
                 (score st) true (Z.max (highScore st) (score st))
                 (Some (Z.max (highScore st) (score st))) (drawn st)) \/
  (~ In (new_head h (direction st)) (snake st) /\
   new_head h (direction st) <> food st /\
   st' = mkState (new_head h (direction st) :: removelast (snake st))
                 (direction st) (food st) (running st) (speed st)
                 (score st) (gameOver st) (highScore st)
                 (localStorage st) (drawn st)) \/
  (~ In (new_head h (direction st)) (snake st) /\
   new_head h (direction st) = food st /\
   exists f n',
     randomFoodPosition rnd fuel (drawn st)
                        (new_head h (direction st) :: snake st)
       = Some (f, n') /\
     st' = mkState (new_head h (direction st) :: snake st) (direction st)
                   f (running st) (speed st) (score st + 1) (gameOver st)
                   (highScore st) (localStorage st) n').
Proof.
  intros Hs Ht.
  destruct (hits (snake st) (new_head h (direction st))) eqn:Hh.
  - apply hits_In in Hh. left. split; [exact Hh|].
    rewrite (tick_collides rnd fuel st h t Hs Hh) in Ht. congruence.
  - apply hits_not_In in Hh. right.
    destruct (positionsEqual (new_head h (direction st)) (food st)) eqn:F.
    + apply positionsEqual_eq in F. right. split; [exact Hh|].
      split; [exact F|].
      rewrite (tick_eats rnd fuel st h t Hs Hh F) in Ht.
      destruct (randomFoodPosition _ _ _ _) as [[f n']|]; [|discriminate].
      exists f, n'. split; [reflexivity | congruence].
    + assert (F' : new_head h (direction st) <> food st).
      { intros C. apply positionsEqual_eq in C. congruence. }
      left. split; [exact Hh|]. split; [exact F'|].
      rewrite (tick_moves rnd fuel st h t Hs Hh F') in Ht. congruence.
Qed.

(** ** What a tick keeps *)

Section TickKeeps.

Variable rnd : nat -> Z.

Lemma tick_empty (fuel : nat) (st : GameState) :
  snake st = [] -> tick rnd fuel st = TypeError.
Proof. intros Hs. unfold tick. now rewrite Hs. Qed.

Lemma tick_sound (fuel : nat) (st st' : GameState) :
  (forall i, 0 <= rnd i < GRID_SIZE) ->
  sound st -> tick rnd fuel st = Done st' -> sound st'.
Proof.
  intros R (Hne & Hg & Hf & Hd & Hy) Ht.
  destruct (snake st) as [|h t] eqn:Hs; [contradiction|].
  assert (Gh : in_grid (new_head h (direction st))).
  { apply new_head_in_grid; [now inversion Hg | exact Hd]. }
  destruct (tick_cases rnd fuel st st' h t Hs Ht)
    as [[_ ->] | [(_ & _ & ->) | (_ & _ & f & n' & Hr & ->)]];
    unfold sound, synced, getHighScore in *; simpl; rewrite ?Hs;
    refine (conj _ (conj _ (conj _ (conj _ _))));
    try assumption; try discriminate; try reflexivity.
  - constructor; [exact Gh | now apply Forall_removelast].
  - constructor; assumption.
  - apply (sample_in_grid rnd _ _ _ _ _ R Hr).
Qed.

Lemma tick_tidy (fuel : nat) (st st' : GameState) :
  is_direction (direction st) ->
  tidy st -> tick rnd fuel st = Done st' -> tidy st'.
Proof.
  intros Hd (Hn & Hl & Hc) Ht.
  destruct (snake st) as [|h t] eqn:Hs;
    [rewrite (tick_empty fuel st Hs) in Ht; discriminate Ht|].
  assert (Nb : neighbour h (new_head h (direction st))).
  { exists (direction st). split; [exact Hd | reflexivity]. }
  destruct (tick_cases rnd fuel st st' h t Hs Ht)
    as [[_ ->] | [(Hin & _ & ->) | (Hin & _ & f & n' & _ & ->)]];
    unfold tidy; simpl snake; simpl score; rewrite ?Hs in *.
  - repeat split; assumption.
  - split; [|split].
    + constructor; [|now apply NoDup_removelast].
      intros H. apply Hin. now apply In_removelast.
    + change (length (new_head h (direction st) :: removelast (h :: t)))
        with (S (length (removelast (h :: t)))).
      rewrite length_removelast_cons. simpl length in Hl. lia.
    + apply (contiguous_removelast (new_head h (direction st) :: h :: t)).
      split; assumption.
  - split; [|split].
    + constructor; assumption.
    + simpl length in *. lia.
    + split; assumption.
Qed.

Lemma tick_ranked (fuel : nat) (st st' : GameState) :
  gameOver st = false -> tick rnd fuel st = Done st' -> ranked st'.
Proof.
  intros G Ht.
  destruct (snake st) as [|h t] eqn:Hs;
    [rewrite (tick_empty fuel st Hs) in Ht; discriminate Ht|].
  destruct (tick_cases rnd fuel st st' h t Hs Ht)
    as [[_ ->] | [(_ & _ & ->) | (_ & _ & f & n' & _ & ->)]];
    unfold ranked; simpl; intros; try congruence; lia.
Qed.

End TickKeeps.

(** ** What every control keeps *)

Lemma script_range (i : nat) : 0 <= script i < GRID_SIZE.
Proof.
  unfold script, replay, GRID_SIZE.
  do 12 (destruct i as [|i]; [simpl; lia|]).
  destruct i; simpl; lia.
Qed.

Lemma arrow_is_direction (a : Arrow) : is_direction (arrow a).
Proof. destruct a; unfold is_direction; simpl; auto. Qed.

Lemma center_in_grid : in_grid center.
Proof.
  unfold in_grid, center, GRID_SIZE. simpl x. simpl y.
  change (20 / 2) with 10. lia.
Qed.

Lemma setDirection_sound (d : Direction) (st : GameState) :
  is_direction d -> sound st -> sound (setDirection d st).
Proof.
  intros Hd (Hne & Hg & Hf & Hdir & Hy).
  refine (conj _ (conj _ (conj _ (conj _ _)))); try assumption.
  now apply turn_is_direction.
Qed.

Lemma onKey_sound (k : Key) (st : GameState) :
  sound st -> sound (onKey k st).
Proof.
  intros H. unfold onKey. destruct (negb (running st)); [exact H|].
  destruct k; try exact H;
    try (apply setDirection_sound; [unfold is_direction; auto | exact H]).
Qed.

Section Keeps.

Variable rnd : nat -> Z.
Hypothesis rnd_range : forall i, 0 <= rnd i < GRID_SIZE.

Lemma resetGame_cases (fuel : nat) (st st' : GameState) :
  resetGame rnd fuel st = Done st' ->
  st' = mkState [center] right_
                (mkPoint (rnd (drawn st)) (rnd (S (drawn st)))) false
                (speed st) 0 false (highScore st) (localStorage st)
                (S (S (drawn st))).
Proof.
  unfold resetGame. destruct fuel as [|fuel]; [discriminate|].
  rewrite sample_empty. congruence.
Qed.

Lemma resetGame_sound (fuel : nat) (st st' : GameState) :
  sound st -> resetGame rnd fuel st = Done st' -> sound st'.
Proof.
  intros (_ & _ & _ & _ & Hy) Hr.
  rewrite (resetGame_cases fuel st st' Hr).
  refine (conj _ (conj _ (conj _ (conj _ _)))); simpl;
    try assumption.
  - discriminate.
  - constructor; [exact center_in_grid | constructor].
  - split; apply rnd_range.
  - left. reflexivity.
Qed.

Lemma run_sound (fuel : nat) (op : Op) (st st' : GameState) :
  match op with OpDirection d => is_direction d | _ => True end ->
  sound st -> run rnd fuel op st = Done st' -> sound st'.
Proof.
  intros Hop Hs. destruct op; simpl.
  - unfold game_loop. destruct (negb (running st) || gameOver st).
    + intros H. injection H as <-. exact Hs.
    + now apply tick_sound.
  - intros H. injection H as <-. now apply onKey_sound.
  - intros H. injection H as <-. now apply setDirection_sound.
  - unfold handleStart. destruct (gameOver st).
    + destruct (resetGame rnd fuel st) as [s| |] eqn:Hr; try discriminate.
      intros H. injection H as <-.
      exact (resetGame_sound fuel st s Hs Hr).
    + intros H. injection H as <-. exact Hs.
  - intros H. injection H as <-. exact Hs.
  - now apply resetGame_sound.
  - intros H. injection H as <-. exact Hs.
  - intros H. injection H as <-.
    destruct Hs as (Hne & Hg & Hf & Hdir & Hy).
    refine (conj _ (conj _ (conj _ (conj _ _)))); assumption.
Qed.

End Keeps.

Lemma tidy_same (st st' : GameState) :
  snake st' = snake st -> score st' = score st -> tidy st -> tidy st'.
Proof. unfold tidy. intros -> ->. auto. Qed.

Lemma ranked_same (st st' : GameState) :
  gameOver st' = gameOver st -> score st' = score st ->
  highScore st' = highScore st -> ranked st -> ranked st'.
Proof. unfold ranked. intros -> -> ->. auto. Qed.

Lemma onKey_same (k : Key) (st : GameState) :
  snake (onKey k st) = snake st /\ score (onKey k st) = score st /\
  gameOver (onKey k st) = gameOver st /\
  highScore (onKey k st) = highScore st /\
  localStorage (onKey k st) = localStorage st /\
  food (onKey k st) = food st /\ speed (onKey k st) = speed st.
Proof.
  unfold onKey. destruct (negb (running st)); [repeat split|].
  destruct k; repeat split.
Qed.

Lemma push_copy_of_last_cons (h : Cell) (t : list Cell) :
  push_copy_of_last (h :: t) = Some ((h :: t) ++ [last (h :: t) h]).
Proof. reflexivity. Qed.

Lemma push_copy_twice (h : Cell) (t : list Cell) :
  push_copy_of_last ((h :: t) ++ [last (h :: t) h]) =
    Some ((h :: t) ++ [last (h :: t) h; last (h :: t) h]).
Proof.
  rewrite <- app_comm_cons, push_copy_of_last_cons.
  rewrite app_comm_cons, last_last, <- app_assoc. reflexivity.
Qed.

Lemma grow_cons (st : GameState) (h : Cell) (t : list Cell) :
  snake st = h :: t ->
  grow st =
    Some (mkState (snake st ++ [last (snake st) h; last (snake st) h])
                  (direction st) (food st) (running st) (speed st)
                  (score st) (gameOver st) (highScore st)
                  (localStorage st) (drawn st)).
Proof.
  intros Hs. unfold grow. rewrite Hs.
  rewrite push_copy_of_last_cons, push_copy_twice. reflexivity.
Qed.

Lemma grow_cases (st g : GameState) :
  grow st = Some g ->
  exists h t,
    snake st = h :: t /\
    g = mkState (snake st ++ [last (snake st) h; last (snake st) h])
                (direction st) (food st) (running st) (speed st) (score st)
                (gameOver st) (highScore st) (localStorage st) (drawn st).
Proof.
  destruct (snake st) as [|h t] eqn:Hs.
  - unfold grow. rewrite Hs. discriminate.
  - rewrite (grow_cons st h t Hs). intros H. injection H as <-.
    exists h, t. rewrite Hs. split; reflexivity.
Qed.

Lemma grow_nonempty (st : GameState) :
  snake st <> [] -> exists g, grow st = Some g.
Proof.
  destruct (snake st) as [|h t] eqn:Hs; [contradiction|]. intros _.
  rewrite (grow_cons st h t Hs). eauto.
Qed.

Lemma handleTouchEnd_cases (t : Point) (ui : Ui) :
  handleTouchEnd t ui = ui \/
  exists d, is_direction d /\
            handleTouchEnd t ui = mkUi (setDirection d (game ui)) None.
Proof.
  unfold handleTouchEnd. destruct (touchStartRef ui) as [s|]; [|now left].
  destruct (Z.max _ _ <? 20); [now left|]. right.
  destruct (_ <? Z.abs _); destruct (0 <? _);
    eexists; (split; [|reflexivity]); unfold is_direction; auto.
Qed.

Section ControlsKeep.

Variable rnd : nat -> Z.
Hypothesis rnd_range : forall i, 0 <= rnd i < GRID_SIZE.

Lemma run_tidy (fuel : nat) (op : Op) (st st' : GameState) :
  is_direction (direction st) ->
  tidy st -> run rnd fuel op st = Done st' -> tidy st'.
Proof.
  intros Hd Ht. destruct op; simpl;
    try (intros H; injection H as <-; revert Ht; apply tidy_same;
         reflexivity).
  - unfold game_loop. destruct (negb (running st) || gameOver st).
    + intros H. injection H as <-. exact Ht.
    + now apply tick_tidy.
  - intros H. injection H as <-. revert Ht.
    apply tidy_same; apply onKey_same.
  - unfold handleStart. destruct (gameOver st).
    + destruct (resetGame rnd fuel st) as [s| |] eqn:Hr; try discriminate.
      intros H. injection H as <-.
      rewrite (resetGame_cases rnd fuel st s Hr).
      unfold tidy. simpl. repeat split; repeat constructor; auto.
    + intros H. injection H as <-. revert Ht. now apply tidy_same.
  - intros Hr. rewrite (resetGame_cases rnd fuel st st' Hr).
    unfold tidy. simpl. repeat split; repeat constructor; auto.
Qed.

Lemma run_ranked (fuel : nat) (op : Op) (st st' : GameState) :
  ranked st -> run rnd fuel op st = Done st' -> ranked st'.
Proof.
  intros Hk. destruct op; simpl;
    try (intros H; injection H as <-; revert Hk; apply ranked_same;
         reflexivity).
  - unfold game_loop. destruct (running st); simpl.
    + destruct (gameOver st) eqn:G.
      * intros H. injection H as <-. exact Hk.
      * now apply tick_ranked.
    + intros H. injection H as <-. exact Hk.
  - intros H. injection H as <-. revert Hk.
    apply ranked_same; apply onKey_same.
  - unfold handleStart. destruct (gameOver st).
    + destruct (resetGame rnd fuel st) as [s| |]; try discriminate.
      intros H. injection H as <-. unfold ranked. simpl. discriminate.
    + intros H. injection H as <-. unfold ranked. simpl. discriminate.
  - intros Hr. rewrite (resetGame_cases rnd fuel st st' Hr).
    unfold ranked. simpl. discriminate.
Qed.

Lemma run_safe (fuel : nat) (op : Op) (st : GameState) :
  snake st <> [] -> run rnd fuel op st <> TypeError.
Proof.
  intros Hne. destruct op; simpl; try discriminate.
  - unfold game_loop. destruct (negb (running st) || gameOver st);
      [discriminate|].
    unfold tick. destruct (snake st) as [|h t]; [contradiction|].
    destruct (hits _ _); [discriminate|].
    destruct (negb _); [discriminate|].
    destruct (randomFoodPosition _ _ _ _) as [[f n']|]; discriminate.
  - unfold handleStart, resetGame. destruct (gameOver st); [|discriminate].
    destruct (randomFoodPosition _ _ _ _) as [[f n']|]; discriminate.
  - unfold resetGame.
    destruct (randomFoodPosition _ _ _ _) as [[f n']|]; discriminate.
Qed.

Lemma engine_done (fuel : nat) (op : Op) (ui ui' : Ui) :
  engine rnd fuel op ui = UiDone ui' ->
  run rnd fuel op (game ui) = Done (game ui') /\
  touchStartRef ui' = touchStartRef ui.
Proof.
  unfold engine. destruct (run rnd fuel op (game ui)); try discriminate.
  intros H. injection H as <-. split; reflexivity.
Qed.

(** The engine operation behind a control, if it has one. *)
Lemma control_engine (fuel : nat) (c : Control) (ui : Ui) :
  (exists op,
     control rnd fuel c ui = engine rnd fuel op ui /\
     match op with OpDirection d => is_direction d | _ => True end) \/
  c = Restart \/ c = Grow \/ c = ResetHigh \/
  (exists t, c = TouchStart t) \/ (exists t, c = TouchEnd t).
Proof.
  destruct c as [|k|a| | | | |v| | | |t|t]; simpl;
    try (left; eexists; split; [reflexivity | exact I]); eauto 8.
  left. exists (OpDirection (arrow a)). split; [reflexivity|].
  apply arrow_is_direction.
Qed.

Lemma control_sound (fuel : nat) (c : Control) (ui ui' : Ui) :
  sound (game ui) -> control rnd fuel c ui = UiDone ui' -> sound (game ui').
Proof.
  intros Hs.
  destruct (control_engine fuel c ui)
    as [[op [-> Hop]] | [-> | [-> | [-> | [[t ->] | [t ->]]]]]]; simpl.
  - intros H. apply engine_done in H. destruct H as [H _].
    exact (run_sound rnd rnd_range fuel op _ _ Hop Hs H).
  - intros H. injection H as <-. exact Hs.
  - destruct (grow (game ui)) as [g|] eqn:Hg; [|discriminate].
    intros H. injection H as <-. simpl.
    destruct (grow_cases _ _ Hg) as (h & t & Hsn & ->).
    destruct Hs as (Hne & Hgr & Hf & Hd & Hy).
    refine (conj _ (conj _ (conj _ (conj _ _)))); simpl;
      try assumption.
    + rewrite Hsn. discriminate.
    + apply Forall_app. split; [exact Hgr|].
      assert (L : in_grid (last (snake (game ui)) h)).
      { rewrite Forall_forall in Hgr. apply Hgr, last_In. exact Hne. }
      constructor; [exact L|]. constructor; [exact L|]. constructor.
  - intros H. injection H as <-. simpl.
    destruct Hs as (Hne & Hgr & Hf & Hd & Hy).
    refine (conj _ (conj _ (conj _ (conj _ _)))); simpl;
      try assumption.
    reflexivity.
  - intros H. injection H as <-. exact Hs.
  - intros H. injection H as <-.
    destruct (handleTouchEnd_cases t ui) as [-> | [d [Hd ->]]];
      [exact Hs|].
    simpl. now apply setDirection_sound.
Qed.

Lemma control_tidy (fuel : nat) (c : Control) (ui ui' : Ui) :
  is_grow c = false ->
  is_direction (direction (game ui)) ->
  tidy (game ui) -> control rnd fuel c ui = UiDone ui' -> tidy (game ui').
Proof.
  intros Hc Hd Ht.
  destruct (control_engine fuel c ui)
    as [[op [-> Hop]] | [-> | [-> | [-> | [[t ->] | [t ->]]]]]]; simpl.
  - intros H. apply engine_done in H. destruct H as [H _].
    exact (run_tidy fuel op _ _ Hd Ht H).
  - intros H. injection H as <-. exact Ht.
  - discriminate Hc.
  - intros H. injection H as <-. exact Ht.
  - intros H. injection H as <-. exact Ht.
  - intros H. injection H as <-.
    destruct (handleTouchEnd_cases t ui) as [-> | [d [_ ->]]];
      [exact Ht|].
    simpl. revert Ht. now apply tidy_same.
Qed.

Lemma control_ranked (fuel : nat) (c : Control) (ui ui' : Ui) :
  is_resetHigh c = false ->
  ranked (game ui) -> control rnd fuel c ui = UiDone ui' ->
  ranked (game ui').
Proof.
  intros Hc Hk.
  destruct (control_engine fuel c ui)
    as [[op [-> Hop]] | [-> | [-> | [-> | [[t ->] | [t ->]]]]]]; simpl.
  - intros H. apply engine_done in H. destruct H as [H _].
    exact (run_ranked fuel op _ _ Hk H).
  - intros H. injection H as <-. unfold ranked. simpl. discriminate.
  - destruct (grow (game ui)) as [g|] eqn:Hg; [|discriminate].
    intros H. injection H as <-. simpl.
    destruct (grow_cases _ _ Hg) as (h & t & _ & ->).
    revert Hk. now apply ranked_same.
  - discriminate Hc.
  - intros H. injection H as <-. exact Hk.
  - intros H. injection H as <-.
    destruct (handleTouchEnd_cases t ui) as [-> | [d [_ ->]]];
      [exact Hk|].
    simpl. revert Hk. now apply ranked_same.
Qed.

Lemma control_safe (fuel : nat) (c : Control) (ui : Ui) :
  snake (game ui) <> [] ->
  control rnd fuel c ui <> UiTypeError /\ control rnd fuel c ui <> NoCell.
Proof.
  intros Hne.
  destruct (control_engine fuel c ui)
    as [[op [-> Hop]] | [-> | [-> | [-> | [[t ->] | [t ->]]]]]]; simpl;
    try (split; discriminate).
  - unfold engine. pose proof (run_safe fuel op (game ui) Hne) as S.
    destruct (run rnd fuel op (game ui)); [| contradiction |];
      split; discriminate.
  - destruct (grow_nonempty (game ui) Hne) as [g ->]. split; discriminate.
Qed.

End ControlsKeep.

(** ** Sessions *)

Section Sessions.

Variable rnd : nat -> Z.
Hypothesis rnd_range : forall i, 0 <= rnd i < GRID_SIZE.

Lemma mount_keeps (fuel : nat) (stored : option Z) (n : nat) (u0 : Ui) :
  mount rnd fuel stored n = UiDone u0 ->
  sound (game u0) /\ tidy (game u0) /\ ranked (game u0).
Proof.
  unfold mount, initial. destruct fuel as [|fuel]; [discriminate|].
  rewrite sample_empty. intros H. injection H as <-. simpl.
  split; [|split].
  - refine (conj _ (conj _ (conj _ (conj _ _)))); simpl.
    + discriminate.
    + constructor; [exact center_in_grid | constructor].
    + split; apply rnd_range.
    + left. reflexivity.
    + reflexivity.
  - unfold tidy. simpl. repeat split; repeat constructor; auto.
  - unfold ranked. simpl. discriminate.
Qed.

Lemma controls_sound (fuel : nat) (cs : list Control) (u u' : Ui) :
  sound (game u) -> controls rnd fuel cs u = UiDone u' -> sound (game u').
Proof.
  revert u. induction cs as [|c cs IH]; intros u Hs; simpl.
  - intros H. injection H as <-. exact Hs.
  - destruct (control rnd fuel c u) as [u1| | |] eqn:Hc; try discriminate.
    apply IH. exact (control_sound rnd rnd_range fuel c u u1 Hs Hc).
Qed.

Lemma controls_tidy (fuel : nat) (cs : list Control) (u u' : Ui) :
  forallb (fun c => negb (is_grow c)) cs = true ->
  sound (game u) -> tidy (game u) ->
  controls rnd fuel cs u = UiDone u' -> tidy (game u').
Proof.
  revert u. induction cs as [|c cs IH]; intros u Hg Hs Ht; simpl.
  - intros H. injection H as <-. exact Ht.
  - simpl in Hg. apply andb_true_iff in Hg. destruct Hg as [Hc Hg].
    apply negb_true_iff in Hc.
    destruct (control rnd fuel c u) as [u1| | |] eqn:E; try discriminate.
    apply (IH u1 Hg).
    + exact (control_sound rnd rnd_range fuel c u u1 Hs E).
    + refine (control_tidy rnd fuel c u u1 Hc _ Ht E). apply Hs.
Qed.

Lemma controls_ranked (fuel : nat) (cs : list Control) (u u' : Ui) :
  forallb (fun c => negb (is_resetHigh c)) cs = true ->
  ranked (game u) ->
  controls rnd fuel cs u = UiDone u' -> ranked (game u').
Proof.
  revert u. induction cs as [|c cs IH]; intros u Hg Hk; simpl.
  - intros H. injection H as <-. exact Hk.
  - simpl in Hg. apply andb_true_iff in Hg. destruct Hg as [Hc Hg].
    apply negb_true_iff in Hc.
    destruct (control rnd fuel c u) as [u1| | |] eqn:E; try discriminate.
    apply (IH u1 Hg). exact (control_ranked rnd fuel c u u1 Hc Hk E).
Qed.

Lemma controls_safe (fuel : nat) (cs : list Control) (u : Ui) :
  sound (game u) ->
  controls rnd fuel cs u <> UiTypeError /\ controls rnd fuel cs u <> NoCell.
Proof.
  revert u. induction cs as [|c cs IH]; intros u Hs; simpl.
  - split; discriminate.
  - destruct (control_safe rnd fuel c u (proj1 Hs)) as [S1 S2].
    destruct (control rnd fuel c u) as [u1| | |] eqn:E;
      try contradiction; [|split; discriminate].
    apply IH. exact (control_sound rnd rnd_range fuel c u u1 Hs E).
Qed.

End Sessions.

(** X1: whatever controls follow the mounting of the component, the
    snake never runs empty: the tick never reads the head of an empty
    array and [Grow] never copies a missing last cell. *)
Theorem session_never_throws (rnd : nat -> Z) (fuel0 fuel : nat)
  (stored : option Z) (n : nat) (cs : list Control) (u0 : Ui) :
  (forall i, 0 <= rnd i < GRID_SIZE) ->
  mount rnd fuel0 stored n = UiDone u0 ->
  controls rnd fuel cs u0 <> UiTypeError /\
  controls rnd fuel cs u0 <> NoCell /\
  forall u, controls rnd fuel cs u0 = UiDone u -> snake (game u) <> [].
Proof.
  intros R Hm. destruct (mount_keeps rnd R fuel0 stored n u0 Hm) as [Hs _].
  destruct (controls_safe rnd R fuel cs u0 Hs) as [S1 S2].
  split; [exact S1|]. split; [exact S2|].
  intros u Hc. exact (proj1 (controls_sound rnd R fuel cs u0 u Hs Hc)).
Qed.

Lemma session_never_throws_witness :
  controls script 1 session mounted <> UiTypeError /\
  controls script 1 session mounted <> NoCell /\
  forall u, controls script 1 session mounted = UiDone u ->
            snake (game u) <> [].
Proof.
  apply (session_never_throws script 1 1 None 0 session mounted).
  - exact script_range.
  - reflexivity.
Defined.

(** X2: after any controls, every cell of the snake and the food lie on
    the grid. *)
Theorem session_cells_on_grid (rnd : nat -> Z) (fuel0 fuel : nat)
  (stored : option Z) (n : nat) (cs : list Control) (u0 u : Ui) :
  (forall i, 0 <= rnd i < GRID_SIZE) ->
  mount rnd fuel0 stored n = UiDone u0 ->
  controls rnd fuel cs u0 = UiDone u ->
  Forall in_grid (snake (game u)) /\ in_grid (food (game u)).
Proof.
  intros R Hm Hc. destruct (mount_keeps rnd R fuel0 stored n u0 Hm) as [Hs _].
  pose proof (controls_sound rnd R fuel cs u0 u Hs Hc) as H.
  split; apply H.
Qed.

Lemma session_cells_on_grid_witness :
  Forall in_grid (snake (game session_end)) /\
  in_grid (food (game session_end)).
Proof.
  apply (session_cells_on_grid script 1 1 None 0 session mounted session_end).
  - exact script_range.
  - reflexivity.
  - reflexivity.
Defined.

(** X3: after any controls, the direction is one of the four unit
    vectors. *)
Theorem session_direction_unit (rnd : nat -> Z) (fuel0 fuel : nat)
  (stored : option Z) (n : nat) (cs : list Control) (u0 u : Ui) :
  (forall i, 0 <= rnd i < GRID_SIZE) ->
  mount rnd fuel0 stored n = UiDone u0 ->
  controls rnd fuel cs u0 = UiDone u ->
  is_direction (direction (game u)).
Proof.
  intros R Hm Hc. destruct (mount_keeps rnd R fuel0 stored n u0 Hm) as [Hs _].
  apply (controls_sound rnd R fuel cs u0 u Hs Hc).
Qed.

Lemma session_direction_unit_witness :
  is_direction (direction (game session_end)).
Proof.
  apply (session_direction_unit script 1 1 None 0 session mounted
           session_end).
  - exact script_range.
  - reflexivity.
  - reflexivity.
Defined.

Lemma run_speed (rnd : nat -> Z) (fuel : nat) (op : Op)
  (st st' : GameState) :
  run rnd fuel op st = Done st' ->
  speed st' = match op with OpSpeed v => v | _ => speed st end.
Proof.
  destruct op; simpl;
    try (intros H; injection H as <-; reflexivity).
  - unfold game_loop. destruct (negb (running st) || gameOver st).
    + intros H. injection H as <-. reflexivity.
    + intros Ht.
      destruct (snake st) as [|h t] eqn:Hs;
        [rewrite (tick_empty rnd fuel st Hs) in Ht; discriminate Ht|].
      destruct (tick_cases rnd fuel st st' h t Hs Ht)
        as [[_ ->] | [(_ & _ & ->) | (_ & _ & f & n' & _ & ->)]];
        reflexivity.
  - intros H. injection H as <-. apply onKey_same.
  - unfold handleStart. destruct (gameOver st).
    + destruct (resetGame rnd fuel st) as [s| |] eqn:Hr; try discriminate.
      intros H. injection H as <-.
      rewrite (resetGame_cases rnd fuel st s Hr). reflexivity.
    + intros H. injection H as <-. reflexivity.
  - intros Hr. rewrite (resetGame_cases rnd fuel st st' Hr). reflexivity.
Qed.

Lemma control_speed (rnd : nat -> Z) (fuel : nat) (c : Control)
  (ui ui' : Ui) :
  control rnd fuel c ui = UiDone ui' ->
  speed (game ui') = slider_value (speed (game ui)) c.
Proof.
  destruct c as [|k|a| | | | |v| | | |t|t]; simpl;
    try (intros H; apply engine_done in H; destruct H as [H _];
         exact (run_speed rnd fuel _ _ _ H));
    try (intros H; injection H as <-; reflexivity).
  - destruct (grow (game ui)) as [g|] eqn:Hg; [|discriminate].
    intros H. injection H as <-.
    destruct (grow_cases _ _ Hg) as (h & t & _ & ->). reflexivity.
  - intros H. injection H as <-.
    destruct (handleTouchEnd_cases t ui) as [-> | [d [_ ->]]]; reflexivity.
Qed.

Lemma controls_speed (rnd : nat -> Z) (fuel : nat) (cs : list Control)
  (u u' : Ui) :
  controls rnd fuel cs u = UiDone u' ->
  speed (game u') = last_slider cs (speed (game u)).
Proof.
  revert u. induction cs as [|c cs IH]; intros u; simpl.
  - intros H. injection H as <-. reflexivity.
  - destruct (control rnd fuel c u) as [u1| | |] eqn:E; try discriminate.
    intros H. rewrite (IH u1 H). unfold last_slider. simpl.
    now rewrite (control_speed rnd fuel c u u1 E).
Qed.

Lemma last_slider_bounded (cs : list Control) (v0 : Z) :
  3 <= v0 <= 20 ->
  Forall (fun c => forall v, c = Slider v -> 3 <= v <= 20) cs ->
  3 <= last_slider cs v0 <= 20.
Proof.
  intros H0 HF. revert v0 H0. unfold last_slider.
  induction HF as [|c cs Hc _ IH]; intros v0 H0; simpl; [exact H0|].
  apply IH. destruct c; simpl; try exact H0. now apply Hc.
Qed.

(** X4: nothing but the slider writes the speed: after any controls it
    is the value of the last slider change, or the initial 8 when there
    was none; so it lies between 3 and 20 whenever every value the
    slider handed over does. *)
Theorem session_speed_from_slider (rnd : nat -> Z) (fuel0 fuel : nat)
  (stored : option Z) (n : nat) (cs : list Control) (u0 u : Ui) :
  mount rnd fuel0 stored n = UiDone u0 ->
  controls rnd fuel cs u0 = UiDone u ->
  speed (game u) = last_slider cs 8 /\
  (Forall (fun c => forall v, c = Slider v -> 3 <= v <= 20) cs ->
   3 <= speed (game u) <= 20).
Proof.
  intros Hm Hc.
  assert (S0 : speed (game u0) = 8).
  { unfold mount, initial in Hm.
    destruct (randomFoodPosition rnd fuel0 n []) as [[f n']|];
      [|discriminate].
    injection Hm as <-. reflexivity. }
  rewrite (controls_speed rnd fuel cs u0 u Hc), S0.
  split; [reflexivity|]. apply last_slider_bounded. lia.
Qed.

Lemma session_speed_from_slider_witness :
  speed (game session_end) = 12 /\ 3 <= speed (game session_end) <= 20.
Proof.
  assert (F : Forall (fun c => forall v, c = Slider v -> 3 <= v <= 20)
                     session).
  { apply Forall_forall. intros c Hc v ->. simpl in Hc.
    repeat (destruct Hc as [Hc | Hc];
            [try discriminate Hc; injection Hc as <-; lia|]).
    contradiction. }
  destruct (session_speed_from_slider script 1 1 None 0 session mounted
              session_end eq_refl eq_refl) as [E B].
  split; [exact E | exact (B F)].
Defined.

(** X5: the stored entry always agrees with the high score shown, so
    mounting the component again from the stored entry, at any moment,
    brings back the same high score. *)
Theorem reload_restores_high_score (rnd : nat -> Z) (fuel0 fuel : nat)
  (stored : option Z) (n : nat) (cs : list Control) (u0 u : Ui) :
  (forall i, 0 <= rnd i < GRID_SIZE) ->
  mount rnd fuel0 stored n = UiDone u0 ->
  controls rnd fuel cs u0 = UiDone u ->
  forall fuel' n',
  exists u',
    mount rnd (S fuel') (localStorage (game u)) n' = UiDone u' /\
    highScore (game u') = highScore (game u).
Proof.
  intros R Hm Hc fuel' n'.
  destruct (mount_keeps rnd R fuel0 stored n u0 Hm) as [Hs _].
  destruct (controls_sound rnd R fuel cs u0 u Hs Hc)
    as (_ & _ & _ & _ & Hy).
  unfold mount, initial. rewrite sample_empty.
  eexists. split; [reflexivity|]. simpl. symmetry. exact Hy.
Qed.

Lemma reload_restores_high_score_witness :
  exists u',
    mount script 1 (localStorage (game plain_end)) 8 = UiDone u' /\
    highScore (game u') = 3.
Proof.
  apply (reload_restores_high_score script 1 1 None 0 plain_session mounted
           plain_end script_range eq_refl eq_refl 0%nat 8%nat).
Defined.

(** X6: as long as [Grow] is not used, the snake never lies twice on the
    same cell. *)
Theorem session_no_duplicate_cells (rnd : nat -> Z) (fuel0 fuel : nat)
  (stored : option Z) (n : nat) (cs : list Control) (u0 u : Ui) :
  (forall i, 0 <= rnd i < GRID_SIZE) ->
  forallb (fun c => negb (is_grow c)) cs = true ->
  mount rnd fuel0 stored n = UiDone u0 ->
  controls rnd fuel cs u0 = UiDone u ->
  NoDup (snake (game u)).
Proof.
  intros R Hg Hm Hc.
  destruct (mount_keeps rnd R fuel0 stored n u0 Hm) as (Hs & Ht & _).
  apply (controls_tidy rnd R fuel cs u0 u Hg Hs Ht Hc).
Qed.

Lemma session_no_duplicate_cells_witness :
  NoDup (snake (game plain_end)).
Proof.
  apply (session_no_duplicate_cells script 1 1 None 0 plain_session mounted
           plain_end).
  - exact script_range.
  - reflexivity.
  - reflexivity.
  - reflexivity.
Defined.

(** X7: as long as [Grow] is not used, the score is the number of cells
    of the snake less one; in particular it is never negative. *)
Theorem session_score_is_length (rnd : nat -> Z) (fuel0 fuel : nat)
  (stored : option Z) (n : nat) (cs : list Control) (u0 u : Ui) :
  (forall i, 0 <= rnd i < GRID_SIZE) ->
  forallb (fun c => negb (is_grow c)) cs = true ->
  mount rnd fuel0 stored n = UiDone u0 ->
  controls rnd fuel cs u0 = UiDone u ->
  score (game u) = Z.of_nat (length (snake (game u))) - 1 /\
  0 <= score (game u).
Proof.
  intros R Hg Hm Hc.
  destruct (mount_keeps rnd R fuel0 stored n u0 Hm) as (Hs & Ht & _).
  pose proof (controls_sound rnd R fuel cs u0 u Hs Hc) as [Hne _].
  destruct (controls_tidy rnd R fuel cs u0 u Hg Hs Ht Hc) as (_ & Hl & _).
  destruct (snake (game u)); [contradiction|]. simpl length in *. lia.
Qed.

Lemma session_score_is_length_witness :
  score (game plain_end) = Z.of_nat (length (snake (game plain_end))) - 1 /\
  0 <= score (game plain_end).
Proof.
  apply (session_score_is_length script 1 1 None 0 plain_session mounted
           plain_end).
  - exact script_range.
  - reflexivity.
  - reflexivity.
  - reflexivity.
Defined.

(** X8: as long as [Grow] is not used, the snake is one piece: each of
    its cells is one step, on the wrapped grid, from the cell behind
    it. *)
Theorem session_snake_contiguous (rnd : nat -> Z) (fuel0 fuel : nat)
  (stored : option Z) (n : nat) (cs : list Control) (u0 u : Ui) :
  (forall i, 0 <= rnd i < GRID_SIZE) ->
  forallb (fun c => negb (is_grow c)) cs = true ->
  mount rnd fuel0 stored n = UiDone u0 ->
  controls rnd fuel cs u0 = UiDone u ->
  contiguous (snake (game u)).
Proof.
  intros R Hg Hm Hc.
  destruct (mount_keeps rnd R fuel0 stored n u0 Hm) as (Hs & Ht & _).
  apply (controls_tidy rnd R fuel cs u0 u Hg Hs Ht Hc).
Qed.

Lemma session_snake_contiguous_witness :
  contiguous (snake (game plain_end)).
Proof.
  apply (session_snake_contiguous script 1 1 None 0 plain_session mounted
           plain_end).
  - exact script_range.
  - reflexivity.
  - reflexivity.
  - reflexivity.
Defined.

(** X9: as long as [Reset High] is not used, whenever the game is over
    the high score is at least the score. *)
Theorem session_game_over_ranked (rnd : nat -> Z) (fuel0 fuel : nat)
  (stored : option Z) (n : nat) (cs : list Control) (u0 u : Ui) :
  (forall i, 0 <= rnd i < GRID_SIZE) ->
  forallb (fun c => negb (is_resetHigh c)) cs = true ->
  mount rnd fuel0 stored n = UiDone u0 ->
  controls rnd fuel cs u0 = UiDone u ->
  gameOver (game u) = true ->
  score (game u) <= highScore (game u).
Proof.
  intros R Hg Hm Hc.
  destruct (mount_keeps rnd R fuel0 stored n u0 Hm) as (_ & _ & Hk).
  apply (controls_ranked rnd fuel cs u0 u Hg Hk Hc).
Qed.

Lemma session_game_over_ranked_witness :
  score (game plain_end) <= highScore (game plain_end).
Proof.
  apply (session_game_over_ranked script 1 1 None 0 plain_session mounted
           plain_end).
  - exact script_range.
  - reflexivity.
  - reflexivity.
  - reflexivity.
  - reflexivity.
Defined.

(** X10: without [Grow] the snake never has more than the 400 cells of
    the grid, and the score never exceeds 399. *)
Theorem session_snake_fits_grid (rnd : nat -> Z) (fuel0 fuel : nat)
  (stored : option Z) (n : nat) (cs : list Control) (u0 u : Ui) :
  (forall i, 0 <= rnd i < GRID_SIZE) ->
  forallb (fun c => negb (is_grow c)) cs = true ->
  mount rnd fuel0 stored n = UiDone u0 ->
  controls rnd fuel cs u0 = UiDone u ->
  (length (snake (game u)) <= 400)%nat /\ score (game u) <= 399.
Proof.
  intros R Hg Hm Hc.
  destruct (mount_keeps rnd R fuel0 stored n u0 Hm) as (Hs & Ht & _).
  destruct (controls_sound rnd R fuel cs u0 u Hs Hc) as (_ & Hgr & _).
  destruct (controls_tidy rnd R fuel cs u0 u Hg Hs Ht Hc) as (Hn & Hl & _).
  assert (L : (length (snake (game u)) <= length all_cells)%nat).
  { apply NoDup_incl_length; [exact Hn|].
    intros c Hc'. rewrite Forall_forall in Hgr.
    destruct c as [cx cy]. destruct (Hgr _ Hc') as [Gx Gy].
    now apply all_cells_complete. }
  change (length all_cells) with 400%nat in L. lia.
Qed.

Lemma session_snake_fits_grid_witness :
  (length (snake (game plain_end)) <= 400)%nat /\
  score (game plain_end) <= 399.
Proof.
  apply (session_snake_fits_grid script 1 1 None 0 plain_session mounted
           plain_end).
  - exact script_range.
  - reflexivity.
  - reflexivity.
  - reflexivity.
Defined.

(** ** Grow *)

Lemma last_default {A : Type} (l : list A) (d d' : A) :
  l <> [] -> last l d = last l d'.
Proof.
  induction l as [|a l IH]; intros H; [contradiction|].
  destruct l as [|b l]; [reflexivity|]. apply IH. discriminate.
Qed.

(** X11: on a snake that is not empty, [Grow] appends two copies of the
    last cell: two cells more, the same cells occupied (so the collision
    test answers as before), the last cell now held three times, and
    the score, food and direction untouched. *)
Theorem grow_appends_tail_copies (st : GameState) (d : Cell) :
  snake st <> [] ->
  exists g,
    grow st = Some g /\
    snake g = snake st ++ [last (snake st) d; last (snake st) d] /\
    length (snake g) = S (S (length (snake st))) /\
    (forall c, hits (snake g) c = hits (snake st) c) /\
    ~ NoDup (snake g) /\
    score g = score st /\ food g = food st /\ direction g = direction st /\
    highScore g = highScore st /\ gameOver g = gameOver st.
Proof.
  intros Hne. destruct (snake st) as [|h t] eqn:Hs; [contradiction|].
  rewrite <- Hs in *.
  exists (mkState (snake st ++ [last (snake st) h; last (snake st) h])
                  (direction st) (food st) (running st) (speed st)
                  (score st) (gameOver st) (highScore st)
                  (localStorage st) (drawn st)).
  rewrite (last_default (snake st) d h Hne).
  split; [exact (grow_cons st h t Hs)|]. simpl.
  split; [reflexivity|].
  split; [rewrite length_app; simpl; lia|].
  split.
  { intros c. destruct (hits (snake st) c) eqn:E.
    - apply hits_In. apply hits_In in E. apply in_or_app. now left.
    - apply hits_not_In. apply hits_not_In in E. intros H.
      apply in_app_or in H.
      destruct H as [H | [H | [H | []]]]; [auto | |];
        subst c; apply E, last_In; exact Hne. }
  split.
  { intros N. apply NoDup_app_remove_l in N.
    inversion N as [|? ? Hin _]. apply Hin. now left. }
  repeat split.
Qed.

Lemma grow_appends_tail_copies_witness :
  exists g,
    grow straight = Some g /\
    snake g = [mkPoint 5 5; mkPoint 4 5; mkPoint 3 5; mkPoint 3 5;
               mkPoint 3 5] /\
    length (snake g) = 5%nat /\
    (forall c, hits (snake g) c = hits (snake straight) c) /\
    ~ NoDup (snake g) /\
    score g = 2 /\ food g = mkPoint 0 0 /\ direction g = right_ /\
    highScore g = 0 /\ gameOver g = false.
Proof.
  apply (grow_appends_tail_copies straight (mkPoint 0 0)).
  simpl. discriminate.
Defined.

(** ** Moving on the wrapped grid *)

Lemma wrap_back (a d : Z) :
  0 <= a < GRID_SIZE -> -1 <= d <= 1 ->
  Z.rem (Z.rem (a + d + GRID_SIZE) GRID_SIZE + - d + GRID_SIZE) GRID_SIZE
    = a.
Proof.
  intros Ha Hd. destruct (wrap_in_range a d Ha Hd) as [E R].
  rewrite E in *. unfold GRID_SIZE in *.
  rewrite Z.rem_mod_nonneg by lia.
  assert (C : d = -1 \/ d = 0 \/ d = 1) by lia.
  assert (B : a = 0 \/ a = 19 \/ 0 < a < 19) by lia.
  destruct C as [-> | [-> | ->]]; destruct B as [-> | [-> | B]];
    try reflexivity.
  - rewrite (Z.mod_small (a + -1)) by lia.
    replace (a + -1 + - -1 + 20) with (a + 1 * 20) by lia.
    rewrite Z.mod_add by lia. apply Z.mod_small. lia.
  - rewrite (Z.mod_small (a + 0)) by lia.
    replace (a + 0 + - 0 + 20) with (a + 1 * 20) by lia.
    rewrite Z.mod_add by lia. apply Z.mod_small. lia.
  - rewrite (Z.mod_small (a + 1)) by lia.
    replace (a + 1 + - (1) + 20) with (a + 1 * 20) by lia.
    rewrite Z.mod_add by lia. apply Z.mod_small. lia.
Qed.

Lemma wrap_moves (a d : Z) :
  0 <= a < GRID_SIZE -> d = 1 \/ d = -1 ->
  Z.rem (a + d + GRID_SIZE) GRID_SIZE <> a.
Proof.
  intros Ha Hd.
  destruct (wrap_in_range a d Ha ltac:(lia)) as [E _]. rewrite E.
  unfold GRID_SIZE in *.
  assert (B : a = 0 \/ a = 19 \/ 0 < a < 19) by lia.
  destruct Hd as [-> | ->]; destruct B as [-> | [-> | B]];
    try (vm_compute; discriminate);
    rewrite Z.mod_small by lia; lia.
Qed.

Lemma opposite_negate (d e : Direction) :
  oppositeDirection d e = true <-> e = negate d.
Proof.
  unfold oppositeDirection, negate. rewrite andb_true_iff, !Z.eqb_eq.
  destruct d as [dx dy], e as [ex ey]. simpl. split.
  - intros [H1 H2]. f_equal; lia.
  - intros H. injection H as -> ->. lia.
Qed.

Lemma step_back (b : Cell) (d : Direction) :
  in_grid b -> is_direction d -> new_head (new_head b d) (negate d) = b.
Proof.
  intros [Gx Gy] Hd. destruct (direction_bounds d Hd) as [Dx Dy].
  destruct b as [bx by_]. unfold new_head, negate. simpl in *.
  now rewrite !wrap_back.
Qed.

(** X12: a step and the step in the negated direction cancel, so for a
    snake of two or more cells whose head came from the cell behind it,
    a tick in the direction opposite (in the sense of
    [oppositeDirection]) to the one it came by always ends the game. *)
Theorem reversal_is_fatal (rnd : nat -> Z) (fuel : nat) (st : GameState)
  (b : Cell) (t : list Cell) (d : Direction) :
  in_grid b -> is_direction d ->
  snake st = new_head b d :: b :: t ->
  oppositeDirection d (direction st) = true ->
  new_head (new_head b d) (direction st) = b /\
  exists st',
    tick rnd fuel st = Done st' /\ gameOver st' = true /\
    running st' = false /\ snake st' = snake st /\ score st' = score st.
Proof.
  intros Gb Hd Hs Ho. apply opposite_negate in Ho.
  assert (E : new_head (new_head b d) (direction st) = b).
  { rewrite Ho. now apply step_back. }
  split; [exact E|].
  assert (Hin : In (new_head (new_head b d) (direction st)) (snake st)).
  { rewrite E, Hs. right. now left. }
  eexists. split.
  - apply (tick_collides rnd fuel st _ _ Hs Hin).
  - simpl. repeat split.
Qed.

Lemma reversal_is_fatal_witness :
  new_head (mkPoint 0 5) left_ = mkPoint 19 5 /\
  exists st',
    tick cycle 0 (mkState [mkPoint 0 5; mkPoint 19 5] left_ (mkPoint 3 3)
                          true 8 1 false 0 None 4) = Done st' /\
    gameOver st' = true /\ running st' = false /\
    snake st' = [mkPoint 0 5; mkPoint 19 5] /\ score st' = 1.
Proof.
  apply (reversal_is_fatal cycle 0
           (mkState [mkPoint 0 5; mkPoint 19 5] left_ (mkPoint 3 3)
                    true 8 1 false 0 None 4)
           (mkPoint 19 5) [] right_).
  - unfold in_grid, GRID_SIZE. simpl. lia.
  - left. reflexivity.
  - reflexivity.
  - reflexivity.
Defined.

(** X13: a snake of one cell cannot die: its new head is never its own
    cell, so the tick never takes the collision branch and leaves
    [gameOver], [running] and the high score as they are. *)
Theorem lone_head_never_collides (rnd : nat -> Z) (fuel : nat)
  (st st' : GameState) (h : Cell) :
  snake st = [h] -> in_grid h -> is_direction (direction st) ->
  tick rnd fuel st = Done st' ->
  new_head h (direction st) <> h /\
  gameOver st' = gameOver st /\ running st' = running st /\
  highScore st' = highScore st /\ localStorage st' = localStorage st /\
  hd h (snake st') = new_head h (direction st).
Proof.
  intros Hs [Gx Gy] Hd Ht.
  assert (N : new_head h (direction st) <> h).
  { destruct h as [hx hy]. unfold new_head. simpl in *.
    destruct Hd as [-> | [-> | [-> | ->]]]; simpl; intros E;
      injection E as Ex Ey.
    - revert Ex. apply wrap_moves; [exact Gx | now left].
    - revert Ex. apply wrap_moves; [exact Gx | now right].
    - revert Ey. apply wrap_moves; [exact Gy | now left].
    - revert Ey. apply wrap_moves; [exact Gy | now right]. }
  split; [exact N|].
  destruct (tick_cases rnd fuel st st' h [] Hs Ht)
    as [[Hin _] | [(_ & _ & ->) | (_ & _ & f & n' & _ & ->)]].
  - rewrite Hs in Hin. destruct Hin as [E | []]. now symmetry in E.
  - simpl. repeat split.
  - simpl. repeat split.
Qed.

Lemma lone_head_never_collides_witness :
  new_head (mkPoint 10 10) right_ <> mkPoint 10 10 /\
  gameOver (mkState [mkPoint 11 10] right_ (mkPoint 3 3) false 8 0 false 0
                    None 0) = false.
Proof.
  destruct (lone_head_never_collides cycle 0 (fresh (mkPoint 3 3))
              (mkState [mkPoint 11 10] right_ (mkPoint 3 3) false 8 0 false
                       0 None 0)
              (mkPoint 10 10) eq_refl center_in_grid
              (or_introl eq_refl) eq_refl) as [N [G _]].
  split; [exact N | exact G].
Defined.

(** ** After the game is over *)

(** X14: [Restart] resumes the very game that just ended: if no
    direction is accepted in between, the next tick runs into the same
    cell again and leaves exactly the game-over state it started
    from. *)
Theorem restart_collides_again (rnd : nat -> Z) (fuel fuel' : nat)
  (st st1 : GameState) :
  gameOver st = false ->
  tick rnd fuel st = Done st1 ->
  gameOver st1 = true ->
  game_loop rnd fuel' (restart st1) = Done st1.
Proof.
  intros G Ht G1.
  destruct (snake st) as [|h t] eqn:Hs;
    [rewrite (tick_empty rnd fuel st Hs) in Ht; discriminate Ht|].
  destruct (tick_cases rnd fuel st st1 h t Hs Ht)
    as [[Hin ->] | [(_ & _ & ->) | (_ & _ & f & n' & _ & ->)]];
    simpl in G1; try congruence.
  assert (M : Z.max (Z.max (highScore st) (score st)) (score st)
              = Z.max (highScore st) (score st)) by lia.
  unfold game_loop, restart.
  cbn [running gameOver negb orb snake direction food speed score
       highScore localStorage drawn].
  rewrite (tick_collides rnd fuel' _ h t);
    cbn [running gameOver snake direction food speed score
         highScore localStorage drawn]; try assumption.
  rewrite M. reflexivity.
Qed.

Lemma restart_collides_again_witness :
  game_loop cycle 0 (restart curled_over) = Done curled_over.
Proof.
  apply (restart_collides_again cycle 0 0 curled curled_over);
    reflexivity.
Defined.

(** X15: while the game is not running, neither the interval nor any
    key changes anything: in particular the space bar, which pauses a
    running game, cannot resume it. *)
Theorem stopped_game_ignores_keys_and_ticks (rnd : nat -> Z) (fuel : nat)
  (cs : list Control) (u : Ui) :
  running (game u) = false ->
  Forall (fun c => c = Interval \/ exists k, c = KeyDown k) cs ->
  controls rnd fuel cs u = UiDone u /\
  forall st, running st = true ->
             running (onKey Space st) = false /\
             forall k, onKey k (onKey Space st) = onKey Space st.
Proof.
  intros R HF. split.
  - induction HF as [|c cs Hc _ IH]; [reflexivity|].
    assert (E : control rnd fuel c u = UiDone u).
    { destruct u as [g r]. simpl in R.
      destruct Hc as [-> | [k ->]]; simpl; unfold engine; simpl.
      - unfold game_loop. now rewrite R.
      - unfold onKey. now rewrite R. }
    simpl. rewrite E. exact IH.
  - intros st Hr.
    assert (E : onKey Space st = toggleRunning st).
    { unfold onKey. now rewrite Hr. }
    rewrite E. split.
    + simpl. now rewrite Hr.
    + intros k. unfold onKey. simpl. now rewrite Hr.
Qed.

Lemma stopped_game_ignores_keys_and_ticks_witness :
  controls cycle 0 [Interval; KeyDown Space; KeyDown ArrowUp; Interval]
           mounted = UiDone mounted.
Proof.
  assert (F : Forall (fun c => c = Interval \/ exists k, c = KeyDown k)
                     [Interval; KeyDown Space; KeyDown ArrowUp; Interval]).
  { apply Forall_cons; [left; reflexivity|].
    apply Forall_cons; [right; eexists; reflexivity|].
    apply Forall_cons; [right; eexists; reflexivity|].
    apply Forall_cons; [left; reflexivity|]. apply Forall_nil. }
  exact (proj1 (stopped_game_ignores_keys_and_ticks cycle 0
                  [Interval; KeyDown Space; KeyDown ArrowUp; Interval]
                  mounted eq_refl F)).
Defined.

(** X16: pausing a running game and starting it again gives back the
    same state, snake, food, score and random draws included; so do
    [Pause] then [Toggle], and [Toggle] twice. *)
Theorem pause_then_start_resumes (rnd : nat -> Z) (fuel : nat) (u : Ui) :
  running (game u) = true -> gameOver (game u) = false ->
  controls rnd fuel [Pause; Start] u = UiDone u /\
  controls rnd fuel [Pause; Toggle] u = UiDone u /\
  controls rnd fuel [Toggle; Toggle] u = UiDone u.
Proof.
  destruct u as [[s d f r v sc g hs ls n] ref]. simpl. intros -> ->.
  repeat split.
Qed.

Lemma pause_then_start_resumes_witness :
  controls cycle 0 [Pause; Start] (mkUi straight None)
    = UiDone (mkUi straight None).
Proof.
  exact (proj1 (pause_then_start_resumes cycle 0 (mkUi straight None)
                  eq_refl eq_refl)).
Defined.

(** ** Swipes *)

(** X17: a touch that ends less than 20 pixels from its start, along
    both axes, requests nothing: the game is as it was and the recorded
    start is kept. *)
Theorem short_swipe_is_ignored (s t : Point) (ui : Ui) :
  Z.abs (x t - x s) < 20 -> Z.abs (y t - y s) < 20 ->
  handleTouchEnd t (handleTouchStart s ui) = handleTouchStart s ui.
Proof.
  intros Hx Hy. unfold handleTouchEnd, handleTouchStart. simpl.
  destruct (Z.ltb_spec (Z.max (Z.abs (x t - x s)) (Z.abs (y t - y s))) 20);
    [reflexivity | lia].
Qed.

Lemma short_swipe_is_ignored_witness :
  handleTouchEnd (mkPoint 110 95) (handleTouchStart (mkPoint 100 100) mounted)
    = handleTouchStart (mkPoint 100 100) mounted.
Proof.
  apply (short_swipe_is_ignored (mkPoint 100 100) (mkPoint 110 95) mounted);
    simpl; lia.
Defined.



(** ** The first free draw *)

(** X19: the cell [randomFoodPosition] returns is the first drawn pair
    that is not excluded: every earlier round drew an excluded cell,
    and each round used up exactly two draws. *)
Theorem placement_is_first_free_draw (rnd : nat -> Z) (fuel n : nat)
  (exclude : list Cell) (c : Cell) (n' : nat) :
  randomFoodPosition rnd fuel n exclude = Some (c, n') ->
  exists k,
    (k < fuel)%nat /\
    n' = (n + 2 * (k + 1))%nat /\
    c = mkPoint (rnd (n + 2 * k)%nat) (rnd (S (n + 2 * k))) /\
    ~ In c exclude /\
    forall j, (j < k)%nat ->
      In (mkPoint (rnd (n + 2 * j)%nat) (rnd (S (n + 2 * j)))) exclude.
Proof.
  revert n. induction fuel as [|fuel IH]; intros n H; [discriminate H|].
  cbn [randomFoodPosition] in H.
  destruct (excluded exclude (rnd n) (rnd (S n))) eqn:E; cbn [negb] in H;
    revert H.
  - intros H. destruct (IH _ H) as (k & Hk & Hn & Hc & Hf & Hj).
    exists (S k). split; [lia|]. split; [lia|].
    replace (n + 2 * S k)%nat with (S (S n) + 2 * k)%nat by lia.
    split; [exact Hc|]. split; [exact Hf|].
    intros j Hlt. destruct j as [|j].
    + replace (n + 2 * 0)%nat with n by lia. now apply excluded_In.
    + replace (n + 2 * S j)%nat with (S (S n) + 2 * j)%nat by lia.
      apply Hj. lia.
  - intros H. injection H as <- <-. exists 0%nat.
    replace (n + 2 * 0)%nat with n by lia.
    split; [lia|]. split; [lia|]. split; [reflexivity|].
    split; [now apply excluded_not_In|]. intros j Hj. lia.
Qed.

Lemma placement_is_first_free_draw_witness :
  exists k,
    (k < 5)%nat /\
    6%nat = (0 + 2 * (k + 1))%nat /\
    mkPoint 4 5 = mkPoint (cycle (0 + 2 * k)%nat) (cycle (S (0 + 2 * k))) /\
    ~ In (mkPoint 4 5) [mkPoint 0 1; mkPoint 2 3] /\
    forall j, (j < k)%nat ->
      In (mkPoint (cycle (0 + 2 * j)%nat) (cycle (S (0 + 2 * j))))
         [mkPoint 0 1; mkPoint 2 3].
Proof.
  apply (placement_is_first_free_draw cycle 5 0 [mkPoint 0 1; mkPoint 2 3]
           (mkPoint 4 5) 6).
  reflexivity.
Defined.

(** ** Drawing *)

(** X20: the outline [drawCell] traces for a cell of the grid, with a
    corner radius of at most half the cell size, stays within the
    square of that cell, which lies inside the canvas; and it ends on
    the point it started from. *)
Theorem drawCell_stays_in_cell (c : Cell) (radius : Z) :
  in_grid c -> 0 <= radius -> 2 * radius <= CELL_SIZE ->
  (forall cmd p,
     In cmd (drawCell (x c) (y c) CELL_SIZE radius) ->
     In p (cmd_points cmd) ->
     x c * CELL_SIZE <= fst p <= x c * CELL_SIZE + CELL_SIZE /\
     y c * CELL_SIZE <= snd p <= y c * CELL_SIZE + CELL_SIZE /\
     0 <= fst p <= CANVAS_SIZE /\ 0 <= snd p <= CANVAS_SIZE) /\
  nth 1 (drawCell (x c) (y c) CELL_SIZE radius) Fill
    = MoveTo (x c * CELL_SIZE + radius) (y c * CELL_SIZE) /\
  nth 9 (drawCell (x c) (y c) CELL_SIZE radius) Fill
    = QuadraticCurveTo (x c * CELL_SIZE) (y c * CELL_SIZE)
                       (x c * CELL_SIZE + radius) (y c * CELL_SIZE).
Proof.
  intros [Gx Gy] R0 R1. unfold CANVAS_SIZE, CELL_SIZE, GRID_SIZE in *.
  split; [|split; reflexivity].
  intros cmd p Hc Hp. unfold drawCell in Hc. simpl in Hc.
  repeat (destruct Hc as [<- | Hc];
          [simpl in Hp;
           repeat (destruct Hp as [<- | Hp]; [simpl; lia|]);
           contradiction|]).
  contradiction.
Qed.

Lemma drawCell_stays_in_cell_witness :
  (19 * CELL_SIZE <= 400 <= 19 * CELL_SIZE + CELL_SIZE /\
   0 * CELL_SIZE <= 3 <= 0 * CELL_SIZE + CELL_SIZE /\
   0 <= 400 <= CANVAS_SIZE /\ 0 <= 3 <= CANVAS_SIZE) /\
  nth 1 (drawCell 19 0 CELL_SIZE 3) Fill
    = MoveTo (19 * CELL_SIZE + 3) (0 * CELL_SIZE).
Proof.
  assert (G : in_grid (mkPoint 19 0))
    by (unfold in_grid, GRID_SIZE; simpl; lia).
  assert (R1 : 2 * 3 <= CELL_SIZE) by (unfold CELL_SIZE; lia).
  destruct (drawCell_stays_in_cell (mkPoint 19 0) 3 G ltac:(lia) R1)
    as [Inside [Start _]].
  split; [|exact Start].
  apply (Inside (QuadraticCurveTo 400 0 400 3) (400, 3)).
  - simpl. auto.
  - simpl. auto.
Defined.

(** ** What a tick never does *)

(** X21: a tick never shortens the snake and never lowers the score;
    each goes up by at most one, and always together; the direction and
    the speed are never touched, and random draws are used only when
    the snake eats. *)
Theorem tick_never_shrinks (rnd : nat -> Z) (fuel : nat)
  (st st' : GameState) :
  tick rnd fuel st = Done st' ->
  (length (snake st) <= length (snake st') <= S (length (snake st)))%nat /\
  score st <= score st' <= score st + 1 /\
  (length (snake st') = S (length (snake st)) <->
   score st' = score st + 1) /\
  direction st' = direction st /\ speed st' = speed st /\
  (score st' = score st -> drawn st' = drawn st /\ food st' = food st).
Proof.
  intros Ht.
  destruct (snake st) as [|h t] eqn:Hs;
    [rewrite (tick_empty rnd fuel st Hs) in Ht; discriminate Ht|].
  destruct (tick_cases rnd fuel st st' h t Hs Ht)
    as [[_ ->] | [(_ & _ & ->) | (_ & _ & f & n' & _ & ->)]];
    cbn [snake score direction speed drawn food]; rewrite ?Hs.
  - repeat split; intros; try lia; auto.
  - change (length (new_head h (direction st) :: removelast (h :: t)))
      with (S (length (removelast (h :: t)))).
    rewrite length_removelast_cons. simpl length.
    repeat split; intros; try lia; auto.
  - simpl length. repeat split; intros; try lia; auto.
Qed.

Lemma tick_never_shrinks_witness :
  (length (snake (fresh (mkPoint 11 10))) <= 2
   <= S (length (snake (fresh (mkPoint 11 10)))))%nat /\
  score (fresh (mkPoint 11 10)) <= 1 <= score (fresh (mkPoint 11 10)) + 1.
Proof.
  destruct (tick_never_shrinks cycle 1 (fresh (mkPoint 11 10))
              (mkState [mkPoint 11 10; mkPoint 10 10] right_ (mkPoint 0 1)
                       false 8 1 false 0 None 2) eq_refl) as [A [B _]].
  split; [exact A | exact B].
Defined.
